(** * giab-truvari-pipe: the three scripts of the repository, embedded and checked

    The repository holds three stand-alone Python scripts:
    - [stratified_performance_metrics.py], the metrics aggregator;
    - [size_bin_plots.py], the plot renderer;
    - [run_pipeline.py], the pipeline driver.

    Each script is embedded below in a module of its own.  What the scripts
    delegate to libraries (pandas, truvari, tabulate, the operating system)
    enters either as a documented function of the embedding or as a
    parameter of the run. *)

From Stdlib Require Import List String Ascii ZArith Lia Bool Arith Permutation.
From Stdlib Require Import Sorted OrderedTypeEx.
Import ListNotations.

Local Open Scope list_scope.

(** ** Python exceptions met by the scripts *)

Inductive exn : Type :=
| FileNotFoundError (path : string)
| EmptyDataError
| ValueError (msg : string)
| KeyError (key : string)
| IndexError (msg : string)
| TypeError (msg : string)
| OSError (msg : string)
| DistributionNotFound (dist : string)
| LibraryError (msg : string).

(** ** Substrings *)

(** [needle] occurs verbatim inside [hay]. *)
Definition occurs_in (needle hay : string) : Prop :=
  exists pre post : string, hay = (pre ++ needle ++ post)%string.

Fixpoint has_prefix (p s : string) : bool :=
  match p, s with
  | EmptyString, _ => true
  | String a p', String b s' => Ascii.eqb a b && has_prefix p' s'
  | String _ _, EmptyString => false
  end.

Fixpoint contains (needle hay : string) : bool :=
  has_prefix needle hay
  || match hay with
     | EmptyString => false
     | String _ hay' => contains needle hay'
     end.

(** * The metrics aggregator: [stratified_performance_metrics.py] *)

Module Aggregator.

(** The file as the tokenizer of [pd.read_csv(..., sep='\t')] sees it: a
    list of lines, each line the list of its tab-separated fields. *)
Definition line := list string.
Definition tsv := list line.

(** What a library call of the script does: it returns, it raises, or it
    leaves the part of pandas that is embedded here ([Beyond]: implicit
    index columns, columns that are not of dtype int64). *)
Inductive result (A : Type) : Type :=
| Ok (a : A)
| Raise (e : exn)
| Beyond.
Arguments Ok {A} a.
Arguments Raise {A} e.
Arguments Beyond {A}.

Record DataFrame : Type := mkFrame {
  columns : list string;
  values : list line
}.

Fixpoint all_spaces (s : string) : bool :=
  match s with
  | EmptyString => true
  | String c s' => Ascii.eqb c " " && all_spaces s'
  end.

(** [skip_blank_lines=True] is the default of [read_csv]: a line with no
    tab that is empty or holds spaces only is passed over. *)
Definition is_blank (l : line) : bool :=
  match l with
  | [] => true
  | [s] => all_spaces s
  | _ => false
  end.

Fixpoint pad (n : nat) (l : line) : line :=
  match n with
  | O => []
  | S n' =>
      match l with
      | [] => EmptyString :: pad n' []
      | c :: l' => c :: pad n' l'
      end
  end.

(** [pd.read_csv(path, sep='\t')]: no [header] and no [names] argument is
    given, so [header='infer'] takes the first line that is not blank as
    the row of column labels and every later line as a data row.  A short
    data row is filled with empty (NaN) cells.  A data row longer than the
    label row is not embedded ([Beyond]): pandas takes the leading fields
    of a longer first data row for an implicit index, and raises
    [ParserError] at a later row that is longer than the rows before it.
    The labels read here are replaced by the next statement of the
    script; pandas' renaming of repeated labels is therefore left out. *)
Definition read_csv (f : option tsv) : result DataFrame :=
  match f with
  | None => Raise (FileNotFoundError "hapdiff_AllTRandHP.tsv")
  | Some ls =>
      match filter (fun l => negb (is_blank l)) ls with
      | [] => Raise EmptyDataError
      | hdr :: body =>
          if forallb (fun r => List.length r <=? List.length hdr) body
          then Ok (mkFrame hdr (map (pad (List.length hdr)) body))
          else Beyond
      end
  end.

Definition names : list string :=
  ["chrom"; "start"; "end"; "tpbase"; "tp"; "fn"; "fp"]%string.

(** [df.columns = [...]]: pandas raises [ValueError] (length mismatch)
    unless the new labels are as many as the columns. *)
Definition set_columns (df : DataFrame) (new : list string) : result DataFrame :=
  if List.length new =? List.length (columns df)
  then Ok (mkFrame new (values df))
  else Raise (ValueError "Length mismatch").

Fixpoint index_of (label : string) (cols : list string) : option nat :=
  match cols with
  | [] => None
  | c :: cols' =>
      if String.eqb c label then Some O
      else option_map S (index_of label cols')
  end.

(** [df[label]]: the cells of the column with that label. *)
Definition column (df : DataFrame) (label : string) : result (list string) :=
  match index_of label (columns df) with
  | None => Raise (KeyError label)
  | Some i => Ok (map (fun r => nth i r EmptyString) (values df))
  end.

(** *** int64 columns *)

Definition is_digit (c : ascii) : bool :=
  (48 <=? nat_of_ascii c) && (nat_of_ascii c <=? 57).

Fixpoint digits_value (acc : Z) (s : string) : option Z :=
  match s with
  | EmptyString => Some acc
  | String c s' =>
      if is_digit c
      then digits_value (10 * acc + Z.of_nat (nat_of_ascii c - 48)) s'
      else None
  end.

Definition int64_min : Z := - 2 ^ 63.
Definition int64_max : Z := 2 ^ 63 - 1.

Definition in_int64 (z : Z) : bool :=
  (int64_min <=? z)%Z && (z <=? int64_max)%Z.

(** A cell that the type inference of pandas reads as an int64: an
    optional minus sign and decimal digits, within range. *)
Definition parse_int64 (s : string) : option Z :=
  let signed :=
    match s with
    | EmptyString => None
    | String "-" EmptyString => None
    | String "-" s' => option_map Z.opp (digits_value 0 s')
    | _ => digits_value 0 s
    end in
  match signed with
  | Some z => if in_int64 z then Some z else None
  | None => None
  end.

Fixpoint parse_cells (cells : list string) : option (list Z) :=
  match cells with
  | [] => Some []
  | c :: cells' =>
      match parse_int64 c, parse_cells cells' with
      | Some z, Some zs => Some (z :: zs)
      | _, _ => None
      end
  end.

(** Two's complement wrap-around of numpy's int64 addition. *)
Definition wrap64 (z : Z) : Z :=
  ((z + 2 ^ 63) mod 2 ^ 64 - 2 ^ 63)%Z.

Definition add64 (a b : Z) : Z := wrap64 (a + b).

(** [Series.sum()] over an int64 column (0 for a column with no row). *)
Definition sum_cells (cells : list string) : result Z :=
  match parse_cells cells with
  | Some zs => Ok (fold_left add64 zs 0%Z)
  | None => Beyond
  end.

(** The Series [df[["tpbase", "tp", "fn", "fp"]].sum()], as the list of
    its labelled entries. *)
Definition Series := list (string * Z).

Fixpoint sum_columns (df : DataFrame) (labels : list string) : result Series :=
  match labels with
  | [] => Ok []
  | l :: labels' =>
      match column df l with
      | Ok cells =>
          match sum_cells cells with
          | Ok z =>
              match sum_columns df labels' with
              | Ok rest => Ok ((l, z) :: rest)
              | Raise e => Raise e
              | Beyond => Beyond
              end
          | Raise e => Raise e
          | Beyond => Beyond
          end
      | Raise e => Raise e
      | Beyond => Beyond
      end
  end.

(** [sums[label]] *)
Fixpoint series_get (s : Series) (label : string) : result Z :=
  match s with
  | [] => Raise (KeyError label)
  | (l, z) :: s' => if String.eqb l label then Ok z else series_get s' label
  end.

(** *** The script *)

Section Script.

(** What [truvari.performance_metrics] returns for each rate (a float, or
    [None] when a denominator is zero), and the function itself. *)
Variable rate : Type.
Variable performance_metrics : Z -> Z -> Z -> Z -> rate * rate * rate.

(** The single-row table [summed_metrics]. *)
Record Metrics : Type := mkMetrics {
  precision : rate;
  recall : rate;
  f1 : rate
}.

(** What a run of the script has done so far. *)
Inductive step : Type :=
| Summed (s : Series)
| Called (tpbase tp fn fp : Z)
| Printed (m : Metrics).

(** Statements run in order; a raise ends the run with the steps taken so
    far. *)
Definition M (A : Type) : Type := list step -> result A * list step.

Definition ret {A} (a : A) : M A := fun log => (Ok a, log).

Definition bind {A B} (m : M A) (k : A -> M B) : M B :=
  fun log =>
    match m log with
    | (Ok a, log') => k a log'
    | (Raise e, log') => (Raise e, log')
    | (Beyond, log') => (Beyond, log')
    end.

Definition lift {A} (r : result A) : M A := fun log => (r, log).

Definition tell (s : step) : M unit := fun log => (Ok tt, log ++ [s]).

Notation "x <- m ;; k" := (bind m (fun x => k))
  (at level 61, m at next level, right associativity).
Notation "m ;;; k" := (bind m (fun _ => k))
  (at level 61, right associativity).

Definition script (f : option tsv) : M unit :=
  df <- lift (read_csv f) ;;
  df <- lift (set_columns df names) ;;
  sums <- lift (sum_columns df ["tpbase"; "tp"; "fn"; "fp"]%string) ;;
  tell (Summed sums) ;;;
  tpbase <- lift (series_get sums "tpbase") ;;
  tp <- lift (series_get sums "tp") ;;
  fn <- lift (series_get sums "fn") ;;
  fp <- lift (series_get sums "fp") ;;
  tell (Called tpbase tp fn fp) ;;;
  let '(p, r, f) := performance_metrics tpbase tp fn fp in
  tell (Printed (mkMetrics p r f)).

Definition run (f : option tsv) : result unit * list step := script f [].

Definition printed (log : list step) : list Metrics :=
  flat_map (fun s => match s with Printed m => [m] | _ => [] end) log.

Definition summed (log : list step) : list Series :=
  flat_map (fun s => match s with Summed m => [m] | _ => [] end) log.

End Script.

Arguments Summed {rate} s.
Arguments Called {rate} tpbase tp fn fp.
Arguments Printed {rate} m.

(** The four sums the script computes, without the rest of the run. *)
Definition computed_sums (f : option tsv) : result Series :=
  match read_csv f with
  | Ok df =>
      match set_columns df names with
      | Ok df' => sum_columns df' ["tpbase"; "tp"; "fn"; "fp"]%string
      | Raise e => Raise e
      | Beyond => Beyond
      end
  | Raise e => Raise e
  | Beyond => Beyond
  end.

(** Column-wise sums taken over all the rows of the file, every line being
    a data row (no header row): the reading of the specification. *)
Definition column_total (i : nat) (ls : list line) : Z :=
  fold_left add64
    (map (fun r => match parse_int64 (nth i r EmptyString) with
                   | Some z => z
                   | None => 0%Z
                   end) ls) 0%Z.

Definition headerless_sums (ls : tsv) : Series :=
  [("tpbase", column_total 3 ls); ("tp", column_total 4 ls);
   ("fn", column_total 5 ls); ("fp", column_total 6 ls)]%string.

End Aggregator.

(** * The plot renderer: [size_bin_plots.py] *)

Module Plots.

(** A row of the loaded dataset, with the three columns the script uses. *)
Record row : Type := mkRow {
  state : string;
  svtype : string;
  szbin : string
}.

(** The labels the loop enumerates, in its order. *)
Definition states : list string := ["tpbase"; "tp"; "fp"; "fn"]%string.

(** The filter [data["state"] == state]. *)
Definition selects (s : string) (r : row) : bool := String.eqb (state r) s.

(** [data[data["state"] == state].copy()] *)
Definition partition (data : list row) (s : string) : list row :=
  filter (selects s) data.

(** One panel of the figure.  The two statements that drop the unused
    categories of the copy change the category sets of its columns, not
    its rows; the embedding keeps the rows that [countplot] counts. *)
Record panel : Type := mkPanel {
  axis : nat;
  title : string;
  rows : list row
}.

Definition draw (index : nat) (s : string) (data : list row) : panel :=
  let dat := partition data s in
  mkPanel index (s ++ " by svtype and szbin")%string dat.

(** [for index, state in enumerate([...])] *)
Definition figure (data : list row) : list panel :=
  map (fun '(index, s) => draw index s data)
      (combine (seq 0 (List.length states)) states).

(** The labels under which a row is drawn. *)
Definition panels_of (r : row) : list string :=
  filter (fun s => selects s r) states.

End Plots.

(** * The pipeline driver: [run_pipeline.py] *)

Module Driver.

Inductive lib (A : Type) : Type :=
| Returns (a : A)
| Raises (e : exn).
Arguments Returns {A} a.
Arguments Raises {A} e.

(** ** The text of an exception *)

Definition double_quote : ascii := ascii_of_nat 34.

Fixpoint has_char (c : ascii) (s : string) : bool :=
  match s with
  | EmptyString => false
  | String a s' => Ascii.eqb a c || has_char c s'
  end.

Definition hex_digit (n : nat) : ascii :=
  ascii_of_nat (if n <? 10 then 48 + n else 87 + n).

(** How [repr] writes one character inside the quotes.  Bytes above 127
    are kept: they are the UTF-8 bytes of characters that Python prints
    as they are when they are printable. *)
Definition escape (quote c : ascii) : string :=
  let n := nat_of_ascii c in
  if Ascii.eqb c quote || Ascii.eqb c "\" then String "\" (String c EmptyString)
  else if n =? 9 then "\t"
  else if n =? 10 then "\n"
  else if n =? 13 then "\r"
  else if (n <? 32) || (n =? 127) then
    String "\" (String "x" (String (hex_digit (n / 16))
                              (String (hex_digit (n mod 16)) EmptyString)))
  else String c EmptyString.

Fixpoint escaped (quote : ascii) (s : string) : string :=
  match s with
  | EmptyString => EmptyString
  | String c s' => (escape quote c ++ escaped quote s')%string
  end.

(** [repr(s)] of a [str]: single quotes, unless the text holds a single
    quote and no double quote. *)
Definition repr (s : string) : string :=
  let quote :=
    if has_char "'" s && negb (has_char double_quote s)
    then double_quote else "'"%char in
  String quote (escaped quote s ++ String quote EmptyString).

(** [str(e)] in the messages of the [except] clauses.  [FileNotFoundError]
    is the one the operating system raises for a path ([open], [Popen]);
    [DistributionNotFound] the one [get_distribution] raises for the
    package it is asked for; [ValueError], [IndexError], [TypeError],
    [OSError] and [LibraryError] carry their text. *)
Definition str_exn (e : exn) : string :=
  match e with
  | FileNotFoundError p => "[Errno 2] No such file or directory: " ++ repr p
  | EmptyDataError => "No columns to parse from file"
  | ValueError m => m
  | KeyError k => repr k
  | IndexError m => m
  | TypeError m => m
  | OSError m => m
  | DistributionNotFound d =>
      "The '" ++ d ++ "' distribution was not found and is required by the application"
  | LibraryError m => m
  end.

(** ** The child process and its two pipes *)

Inductive stream : Type := Stdout | Stderr.

Definition stream_eqb (a b : stream) : bool :=
  match a, b with
  | Stdout, Stdout | Stderr, Stderr => true
  | _, _ => false
  end.

(** A run of the child: the lines it writes, in the order and on the
    stream it writes them, and the status it exits with once it has
    written them all. *)
Record child : Type := mkChild {
  emits : list (stream * string);
  returncode : Z
}.

Definition lines_of (st : stream) (evs : list (stream * string)) : list string :=
  map snd (filter (fun e => stream_eqb (fst e) st) evs).

Definition tag (st : stream) (ls : list string) : list (stream * string) :=
  map (pair st) ls.

(** The bytes the lines held by a pipe take. *)
Definition pipe_bytes (p : list string) : N :=
  fold_right (fun l n => (N.of_nat (String.length l) + n)%N) 0%N p.

(** The bytes the child writes to its stderr over its whole run. *)
Definition stderr_bytes (evs : list (stream * string)) : N :=
  pipe_bytes (lines_of Stderr evs).

(** What a pipe of the operating system holds at most: on Linux, 16 pages
    of 4096 bytes. *)
Definition pipe_capacity : N := 16 * 4096.

(** A line fits into what is left of a pipe. *)
Definition has_room (capacity : N) (pipe : list string) (l : string) : bool :=
  (pipe_bytes pipe + N.of_nat (String.length l) <=? capacity)%N.

(** Where the driver stands inside the [with subprocess.Popen(...)] block. *)
Inductive phase : Type :=
| DrainStdout   (* for line in process.stdout *)
| DrainStderr   (* for line in process.stderr *)
| Waiting       (* process.wait() *)
| Finished.

(** The child and the driver run side by side ([stdout=subprocess.PIPE],
    [stderr=subprocess.PIPE]).  Each pipe holds the lines written and not
    yet read; the child closes both pipes when it exits, which is when it
    has nothing left to emit. *)
Record pstate : Type := mkP {
  pending : list (stream * string);
  out_pipe : list string;
  err_pipe : list string;
  at_phase : phase;
  forwarded : list (stream * string)
}.

Definition start (c : child) : pstate :=
  mkP (emits c) [] [] DrainStdout [].

Definition exited (s : pstate) : bool :=
  match pending s with
  | [] => true
  | _ :: _ => false
  end.

(** The child writes its next line, or waits: a pipe takes [capacity]
    bytes and a write that does not fit blocks until the reader has made
    room.  The driver reads stdout while the child runs, so a line written
    to the empty stdout pipe goes through whatever its length, in pieces
    if need be.  Nothing reads stderr before the child has exited: a line
    that does not fit into the stderr pipe is never written, and the child
    stays where it is. *)
Definition child_step (capacity : N) (s : pstate) : pstate :=
  match pending s with
  | [] => s
  | (Stdout, l) :: rest =>
      match out_pipe s with
      | [] => mkP rest [l] (err_pipe s) (at_phase s) (forwarded s)
      | _ :: _ =>
          if has_room capacity (out_pipe s) l
          then mkP rest (out_pipe s ++ [l]) (err_pipe s) (at_phase s) (forwarded s)
          else s
      end
  | (Stderr, l) :: rest =>
      if has_room capacity (err_pipe s) l
      then mkP rest (out_pipe s) (err_pipe s ++ [l]) (at_phase s) (forwarded s)
      else s
  end.

(** The driver moves on: it reads a line from the pipe it iterates over
    and writes it to its own stream, or it meets the end of that pipe and
    leaves the loop; it stays blocked while the pipe is empty and open. *)
Definition driver_step (s : pstate) : pstate :=
  match at_phase s with
  | DrainStdout =>
      match out_pipe s with
      | l :: q =>
          mkP (pending s) q (err_pipe s) DrainStdout (forwarded s ++ [(Stdout, l)])
      | [] =>
          if exited s
          then mkP (pending s) [] (err_pipe s) DrainStderr (forwarded s)
          else s
      end
  | DrainStderr =>
      match err_pipe s with
      | l :: q =>
          mkP (pending s) (out_pipe s) q DrainStderr (forwarded s ++ [(Stderr, l)])
      | [] =>
          if exited s
          then mkP (pending s) (out_pipe s) [] Waiting (forwarded s)
          else s
      end
  | Waiting =>
      if exited s
      then mkP (pending s) (out_pipe s) (err_pipe s) Finished (forwarded s)
      else s
  | Finished => s
  end.

(** Who runs next is the scheduler's choice. *)
Inductive turn : Type := ChildTurn | DriverTurn.

Definition step (capacity : N) (t : turn) (s : pstate) : pstate :=
  match t with
  | ChildTurn => child_step capacity s
  | DriverTurn => driver_step s
  end.

Definition exec (capacity : N) (c : child) (schedule : list turn) : pstate :=
  fold_left (fun s t => step capacity t s) schedule (start c).

(** The child and the driver take turns, [n] times over. *)
Fixpoint alternate (n : nat) : list turn :=
  match n with
  | O => []
  | S n' => ChildTurn :: DriverTurn :: alternate n'
  end.

(** A schedule that leaves out neither the child nor the driver, long
    enough for both to come to their end when they can. *)
Definition fair_schedule (c : child) : list turn :=
  alternate (2 * List.length (emits c) + 3).

Fixpoint is_prefix (p l : list string) : Prop :=
  match p, l with
  | [], _ => True
  | a :: p', b :: l' => a = b /\ is_prefix p' l'
  | _ :: _, [] => False
  end.

(** What holds of the two pipes and of the lines forwarded so far, at
    every point of every run. *)
Definition drain_invariant (c : child) (s : pstate) : Prop :=
  lines_of Stdout (emits c)
    = lines_of Stdout (forwarded s) ++ out_pipe s ++ lines_of Stdout (pending s)
  /\ lines_of Stderr (emits c)
    = lines_of Stderr (forwarded s) ++ err_pipe s ++ lines_of Stderr (pending s)
  /\ forwarded s
    = tag Stdout (lines_of Stdout (forwarded s))
      ++ tag Stderr (lines_of Stderr (forwarded s))
  /\ match at_phase s with
     | DrainStdout => lines_of Stderr (forwarded s) = []
     | DrainStderr => out_pipe s = [] /\ pending s = []
     | Waiting | Finished => out_pipe s = [] /\ err_pipe s = [] /\ pending s = []
     end.

(** What the child still has to write to stderr fits into the stderr pipe
    together with what the pipe holds.  This matters as long as the driver
    is in its loop over stdout. *)
Definition stderr_fits (capacity : N) (s : pstate) : Prop :=
  at_phase s = DrainStdout ->
  (pipe_bytes (err_pipe s) + stderr_bytes (pending s) <= capacity)%N.

(** The stderr pipe cannot take all the child has to write to it: what it
    holds is within its capacity, what is still to come is not. *)
Definition stderr_floods (capacity : N) (s : pstate) : Prop :=
  at_phase s = DrainStdout
  /\ (pipe_bytes (err_pipe s) <= capacity)%N
  /\ (capacity < pipe_bytes (err_pipe s) + stderr_bytes (pending s))%N.

(** The rounds of one turn each that child and driver still need at most. *)
Definition work_left (s : pstate) : nat :=
  2 * List.length (pending s) + List.length (out_pipe s)
  + List.length (err_pipe s)
  + match at_phase s with
    | DrainStdout => 3
    | DrainStderr => 2
    | Waiting => 1
    | Finished => 0
    end.

(** ** Templates and [str.format] *)

(** A replacement field [{arg_name[i]...[j]}].  The template language of
    Python also has attribute access, conversions ([!r]) and format
    specifications ([:>10]); what they print depends on the interpreter's
    object printer and they are not part of this embedding. *)
Record field : Type := mkField {
  arg_name : string;
  indices : list nat
}.

(** The template text as [str.format] scans it: literal text (with [{{]
    and [}}] already read as one brace) and replacement fields. *)
Inductive segment : Type :=
| Lit (s : string)
| Field (f : field).

(** A template is scanned from left to right.  [Malformed segs msg] is a
    text in which the scan meets, after the segments [segs], a brace that
    opens or closes no field: [ValueError msg]. *)
Inductive template : Type :=
| Malformed (segs : list segment) (msg : string)
| Wellformed (segs : list segment).

Definition plain (name : string) : segment := Field (mkField name []).

Definition kwargs := list (string * string).

Fixpoint lookup (k : string) (kw : kwargs) : option string :=
  match kw with
  | [] => None
  | (k', v) :: kw' => if String.eqb k' k then Some v else lookup k kw'
  end.

Definition is_digit (c : ascii) : bool :=
  (48 <=? nat_of_ascii c) && (nat_of_ascii c <=? 57).

Fixpoint all_digits (s : string) : bool :=
  match s with
  | EmptyString => true
  | String c s' => is_digit c && all_digits s'
  end.

(** [value[i]] on a [str]. *)
Definition get_item (v : string) (i : nat) : lib string :=
  match String.get i v with
  | Some c => Returns (String c EmptyString)
  | None => Raises (IndexError "string index out of range")
  end.

Fixpoint get_items (v : string) (path : list nat) : lib string :=
  match path with
  | [] => Returns v
  | i :: path' =>
      match get_item v i with
      | Returns v' => get_items v' path'
      | Raises e => Raises e
      end
  end.

(** The value of a field.  [format] is called with keyword arguments
    only: an empty name (automatic numbering) and a number look into the
    empty tuple of positional arguments. *)
Definition get_field (kw : kwargs) (f : field) : lib string :=
  if String.eqb (arg_name f) "" then
    Raises (IndexError "Replacement index 0 out of range for positional args tuple")
  else if all_digits (arg_name f) then
    Raises (IndexError "Replacement index out of range for positional args tuple")
  else
    match lookup (arg_name f) kw with
    | Some v => get_items v (indices f)
    | None => Raises (KeyError (arg_name f))
    end.

(** Fields are replaced from left to right; the first failure is raised. *)
Fixpoint format_segments (segs : list segment) (kw : kwargs) : lib string :=
  match segs with
  | [] => Returns EmptyString
  | Lit s :: segs' =>
      match format_segments segs' kw with
      | Returns r => Returns (s ++ r)%string
      | Raises e => Raises e
      end
  | Field f :: segs' =>
      match get_field kw f with
      | Returns v =>
          match format_segments segs' kw with
          | Returns r => Returns (v ++ r)%string
          | Raises e => Raises e
          end
      | Raises e => Raises e
      end
  end.

(** [template_text.format(...)] with the keyword arguments [kw].  The
    fields before a stray brace are replaced before the scan reaches it:
    a field that fails there raises its own error, and the [ValueError]
    of the brace comes only when none does. *)
Definition format (t : template) (kw : kwargs) : lib string :=
  match t with
  | Malformed segs msg =>
      match format_segments segs kw with
      | Returns _ => Raises (ValueError msg)
      | Raises e => Raises e
      end
  | Wellformed segs => format_segments segs kw
  end.

(** The names of the placeholders of a template. *)
Definition placeholder_names (segs : list segment) : list string :=
  flat_map (fun s => match s with Lit _ => [] | Field f => [arg_name f] end) segs.

Definition is_plain (s : segment) : bool :=
  match s with
  | Lit _ => true
  | Field f => match indices f with [] => true | _ :: _ => false end
  end.

(** The keys [generate_readme] passes to [format]. *)
Definition substitution_keys : list string :=
  ["pipeline_name"; "date_of_run"; "snakemake_version"; "pipeline_version";
   "truvari_version"; "pandas_version"; "tabulate_version";
   "summary_table"]%string.

(** The template with every placeholder replaced by the value bound to its
    name (nothing for a name that is not bound). *)
Fixpoint substituted (segs : list segment) (kw : kwargs) : string :=
  match segs with
  | [] => EmptyString
  | Lit s :: segs' => (s ++ substituted segs' kw)%string
  | Field f :: segs' =>
      (match lookup (arg_name f) kw with Some v => v | None => EmptyString end
       ++ substituted segs' kw)%string
  end.

(** ** What a run meets outside the script *)

(** The table [pd.read_csv] loads from the CSV report. *)
Record frame : Type := mkCsv {
  header : list string;
  body : list (list string)
}.

(** What a run meets once [parser.parse_args()] has returned.  A command
    line that argparse does not accept ends the process inside
    [parse_args], before any statement embedded below, with the status
    argparse chooses (0 after [--help], 2 for an argument it does not
    know); such runs have no [world]. *)
Record world : Type := mkWorld {
  skip_pipeline : bool;                  (* args.skip_pipeline *)
  snakemake : lib child;                 (* subprocess.Popen([...]) *)
  csv_isfile : bool;                     (* os.path.isfile(summary_file) *)
  csv_read : lib frame;                  (* pd.read_csv(summary_file) *)
  tabulate : frame -> lib string;        (* tabulate(..., tablefmt="pipe", ...) *)
  template_isfile : bool;                (* os.path.isfile(template_file) *)
  today : string;                        (* datetime.now().strftime("%Y-%m-%d") *)
  distribution : string -> lib string;   (* pkg_resources.get_distribution(d).version *)
  template_read : lib template;          (* open(template_file, "r"), f.read() *)
  output_write : option exn              (* open(output_file, "w"), f.write(...) *)
}.

(** The workflow step of the run comes to an end: it is skipped, or the
    tool cannot be launched, or what the child writes to stderr fits into
    the pipe, so that the child gets to exit. *)
Definition comes_to_an_end (capacity : N) (w : world) : Prop :=
  skip_pipeline w = true
  \/ match snakemake w with
     | Returns c => (stderr_bytes (emits c) <= capacity)%N
     | Raises _ => True
     end.

(** ** Effects *)

Inductive event : Type :=
| PrintLine (msg : string)
| Popen (argv : list string)
| Forward (st : stream) (line : string) (* sys.stdout.write, sys.stderr.write *)
| Wait
| IsFile (path : string)
| ReadCsv (path : string)
| Tabulated (table : string)
| Now
| GetDistribution (dist : string)
| OpenRead (path : string)
| OpenWrite (path : string)
| Wrote (path : string) (text : string)
| Traceback (e : exn).

(** How a piece of the script ends. *)
Inductive outcome (A : Type) : Type :=
| Return (a : A)
| SysExit (code : Z)
| Uncaught (e : exn).
Arguments Return {A} a.
Arguments SysExit {A} code.
Arguments Uncaught {A} e.

(** A computation: how it ends and the effects it had, in order. *)
Definition M (A : Type) : Type := (outcome A * list event)%type.

Definition ret {A} (a : A) : M A := (Return a, []).

Definition bind {A B} (m : M A) (k : A -> M B) : M B :=
  match m with
  | (Return a, t) => let '(o, t') := k a in (o, t ++ t')
  | (SysExit n, t) => (SysExit n, t)
  | (Uncaught e, t) => (Uncaught e, t)
  end.

Definition tell (e : event) : M unit := (Return tt, [e]).
Definition print (msg : string) : M unit := tell (PrintLine msg).
Definition sys_exit {A} (n : Z) : M A := (SysExit n, []).
Definition raise {A} (e : exn) : M A := (Uncaught e, []).

(** A library call outside any [try]. *)
Definition call {A} (r : lib A) : M A :=
  match r with
  | Returns a => ret a
  | Raises e => raise e
  end.

Notation "x <- m ;; k" := (bind m (fun x => k))
  (at level 61, m at next level, right associativity).
Notation "m ;;; k" := (bind m (fun _ => k))
  (at level 61, right associativity).

Definition when (b : bool) (m : M unit) : M unit :=
  if b then m else ret tt.

Fixpoint for_each {A} (l : list A) (body : A -> M unit) : M unit :=
  match l with
  | [] => ret tt
  | a :: l' => body a ;;; for_each l' body
  end.

(** ** The functions of the script *)

Definition snakemake_argv : list string :=
  ["snakemake"; "--cores"; "20"; "--verbose"; "--rerun-incomplete"]%string.

(** The function as it runs when the child gets to exit: the two loops
    have then read each pipe to its end.  A child that the stderr pipe
    keeps from exiting (see [child_step]) keeps the function inside its
    first loop for ever; of such a run the effects below are those up to
    that loop and no more. *)
Definition run_snakemake_pipeline (w : world) : M unit :=
  print "Running the Snakemake pipeline..." ;;;
  tell (Popen snakemake_argv) ;;;
  process <- call (snakemake w) ;;
  for_each (lines_of Stdout (emits process)) (fun l => tell (Forward Stdout l)) ;;;
  for_each (lines_of Stderr (emits process)) (fun l => tell (Forward Stderr l)) ;;;
  tell Wait ;;;
  when (negb (returncode process =? 0)%Z)
    (print "Snakemake pipeline failed." ;;; sys_exit 1).

Definition summary_file : string := "summary_reports/combined_summary_report.csv".

Definition generate_summary_table (w : world) : M string :=
  tell (IsFile summary_file) ;;;
  when (negb (csv_isfile w))
    (print ("Error: " ++ summary_file ++ " not found.") ;;; sys_exit 1) ;;;
  print "Loading the combined_summary_report.csv file..." ;;;
  tell (ReadCsv summary_file) ;;;
  combined_summary_report <-
    match csv_read w with
    | Returns df => ret df
    | Raises e =>
        print ("Error loading " ++ summary_file ++ ": " ++ str_exn e) ;;;
        sys_exit 1
    end ;;
  print "Converting the combined_summary_report DataFrame to a Markdown table..." ;;;
  table <- call (tabulate w combined_summary_report) ;;
  tell (Tabulated table) ;;;
  ret table.

Definition template_file : string := "README-eval-template.md".
Definition output_file : string := "giab-evaluation-README.md".

Definition generate_readme (w : world) (summary_table : string) : M unit :=
  tell (IsFile template_file) ;;;
  when (negb (template_isfile w))
    (print ("Error: " ++ template_file ++ " not found.") ;;; sys_exit 1) ;;;
  print "Filling in the template README.md with pipeline and run information..." ;;;
  tell Now ;;;
  let date_of_run := today w in
  let pipeline_name := "Truvari Analysis"%string in
  tell (GetDistribution "snakemake") ;;;
  snakemake_version <- call (distribution w "snakemake") ;;
  let pipeline_version := "1.2.0"%string in
  let truvari_version := "v4.2.2-dev"%string in
  tell (GetDistribution "pandas") ;;;
  pandas_version <- call (distribution w "pandas") ;;
  tell (GetDistribution "tabulate") ;;;
  tabulate_version <- call (distribution w "tabulate") ;;
  tell (OpenRead template_file) ;;;
  template_text <-
    match template_read w with
    | Returns t => ret t
    | Raises e =>
        print ("Error reading " ++ template_file ++ ": " ++ str_exn e) ;;;
        sys_exit 1
    end ;;
  filled_text <-
    call (format template_text
            [("pipeline_name", pipeline_name);
             ("date_of_run", date_of_run);
             ("snakemake_version", snakemake_version);
             ("pipeline_version", pipeline_version);
             ("truvari_version", truvari_version);
             ("pandas_version", pandas_version);
             ("tabulate_version", tabulate_version);
             ("summary_table", summary_table)]%string) ;;
  print "Writing the filled README.md file..." ;;;
  tell (OpenWrite output_file) ;;;
  match output_write w with
  | None => tell (Wrote output_file filled_text)
  | Some e =>
      print ("Error writing " ++ output_file ++ ": " ++ str_exn e) ;;;
      sys_exit 1
  end.

(** [main] from the statement after [args = parser.parse_args()] on. *)
Definition main (w : world) : M unit :=
  when (negb (skip_pipeline w)) (run_snakemake_pipeline w) ;;;
  summary_table <- generate_summary_table w ;;
  generate_readme w summary_table ;;;
  print "Finished!".

(** The lines a run wrote to its own stdout and stderr with
    [sys.stdout.write] and [sys.stderr.write], in order. *)
Definition forwards (t : list event) : list (stream * string) :=
  flat_map (fun e => match e with Forward st l => [(st, l)] | _ => [] end) t.

(** ** The interpreter around the script *)

Record run : Type := mkRun {
  events : list event;
  status : Z
}.

(** A script that returns exits with status 0; [sys.exit(n)] exits with
    status [n]; an exception nobody caught is printed as a traceback and
    the status is 1. *)
Definition python (m : M unit) : run :=
  match m with
  | (Return _, t) => mkRun t 0
  | (SysExit n, t) => mkRun t n
  | (Uncaught e, t) => mkRun (t ++ [Traceback e]) 1
  end.

(** ** Vocabulary of the statements *)

(** The keyword arguments of the call to [format]. *)
Definition readme_kwargs (w : world)
    (snakemake_version pandas_version tabulate_version summary_table : string)
    : kwargs :=
  [("pipeline_name", "Truvari Analysis");
   ("date_of_run", today w);
   ("snakemake_version", snakemake_version);
   ("pipeline_version", "1.2.0");
   ("truvari_version", "v4.2.2-dev");
   ("pandas_version", pandas_version);
   ("tabulate_version", tabulate_version);
   ("summary_table", summary_table)]%string.

(** The placeholder names of a template are exactly the keys. *)
Definition same_names (segs : list segment) : Prop :=
  forall k : string, In k (placeholder_names segs) <-> In k substitution_keys.

Definition is_brace (c : ascii) : bool :=
  Ascii.eqb c "{" || Ascii.eqb c "}".

Fixpoint no_brace (s : string) : bool :=
  match s with
  | EmptyString => true
  | String c s' => negb (is_brace c) && no_brace s'
  end.

Definition literals (segs : list segment) : list string :=
  flat_map (fun s => match s with Lit l => [l] | Field _ => [] end) segs.

(** An error shown to the user: a message of an [except] clause or of a
    file check, or the traceback of the interpreter. *)
Definition is_report (e : event) : bool :=
  match e with
  | PrintLine msg => has_prefix "Error" msg
  | Traceback _ => true
  | _ => false
  end.

(** The last thing the run did was to report an error. *)
Definition reported (r : run) : Prop :=
  is_report (last (events r) Wait) = true.

(** The effects only [run_snakemake_pipeline] has. *)
Definition of_pipeline (e : event) : bool :=
  match e with
  | Popen _ | Forward _ _ | Wait => true
  | _ => false
  end.

(** The effects only [generate_summary_table] has. *)
Definition of_summary (e : event) : bool :=
  match e with
  | IsFile p => String.eqb p summary_file
  | ReadCsv _ | Tabulated _ => true
  | _ => false
  end.

(** The effects only [generate_readme] has. *)
Definition of_readme (e : event) : bool :=
  match e with
  | IsFile p => String.eqb p template_file
  | Now | GetDistribution _ | OpenRead _ | OpenWrite _ | Wrote _ _ => true
  | _ => false
  end.

Definition is_popen (e : event) : bool :=
  match e with
  | Popen _ => true
  | _ => false
  end.

(** How many times a run launched a child. *)
Definition launches (t : list event) : nat := List.length (filter is_popen t).

(** The files a run wrote, with their text. *)
Definition wrote (t : list event) : list (string * string) :=
  flat_map (fun e => match e with Wrote p text => [(p, text)] | _ => [] end) t.

(** The tables a run produced. *)
Definition tabulated (t : list event) : list string :=
  flat_map (fun e => match e with Tabulated table => [table] | _ => [] end) t.

(** What [generate_readme] does before it calls [format], when nothing
    fails on the way. *)
Definition readme_prelude : list event :=
  [IsFile template_file;
   PrintLine "Filling in the template README.md with pipeline and run information...";
   Now; GetDistribution "snakemake"; GetDistribution "pandas";
   GetDistribution "tabulate"; OpenRead template_file]%string.

End Driver.

(** * Vocabulary of the further facts *)

(** ** Totals of the metrics aggregator *)

Module Totals.

(** The integer a cell holds (0 for a cell that is no int64). *)
Definition cell_value (s : string) : Z :=
  match Aggregator.parse_int64 s with
  | Some z => z
  | None => 0%Z
  end.

Definition is_int64_cell (s : string) : bool :=
  match Aggregator.parse_int64 s with
  | Some _ => true
  | None => false
  end.

(** The total of field [i] over the rows, as an integer without bound. *)
Definition exact_total (i : nat) (rows : list Aggregator.line) : Z :=
  fold_right Z.add 0%Z (map (fun r => cell_value (nth i r EmptyString)) rows).

(** A row of seven fields whose four counts are int64 cells. *)
Definition count_row (r : Aggregator.line) : bool :=
  (List.length r =? 7)
  && forallb (fun i => is_int64_cell (nth i r EmptyString)) [3; 4; 5; 6].

(** A first line of seven fields followed by count rows. *)
Definition well_formed (ls : Aggregator.tsv) : bool :=
  match ls with
  | [] => false
  | hdr :: body =>
      negb (Aggregator.is_blank hdr) && (List.length hdr =? 7)
      && forallb count_row body
  end.

(** Two rows that agree from the fourth field on. *)
Definition same_counts (r r' : Aggregator.line) : Prop :=
  3 < List.length r /\ 3 < List.length r' /\ skipn 3 r = skipn 3 r'.

End Totals.

(** ** Categories and bars of the plot renderer *)

Module Categories.

(** Among the rows of the dataset, those whose state is one of the four
    labels. *)
Definition known_state (r : Plots.row) : bool :=
  existsb (String.eqb (Plots.state r)) Plots.states.

(** How a column of the loaded dataset is stored: as plain strings, or
    already as a categorical with its list of categories. *)
Inductive dtype : Type :=
| Object
| Categorical (cats : list string).

Record dataset : Type := mkData {
  records : list Plots.row;
  svtype_dtype : dtype;
  szbin_dtype : dtype
}.

(** The unique values of a column of strings, sorted: the categories
    pandas infers. *)
Fixpoint insert_category (c : string) (cats : list string) : list string :=
  match cats with
  | [] => [c]
  | x :: cats' =>
      match String.compare c x with
      | Lt => c :: cats
      | Eq => cats
      | Gt => x :: insert_category c cats'
      end
  end.

Definition sorted_unique (vals : list string) : list string :=
  fold_right insert_category [] vals.

(** The order of that sort: strings compared character by character. *)
Definition before (a b : string) : Prop := String.compare a b = Lt.

(** [column.astype('category')]: a column that is a categorical already is
    left as it is. *)
Definition astype_category (d : dtype) (vals : list string) : list string :=
  match d with
  | Object => sorted_unique vals
  | Categorical cats => cats
  end.

(** [column.cat.remove_unused_categories()]: the categories that label a
    value of the column, in their order. *)
Definition remove_unused_categories (cats vals : list string) : list string :=
  filter (fun c => existsb (String.eqb c) vals) cats.

(** The categories of the two columns of the copy [dat] that is drawn for
    a state. *)
Definition szbin_categories (d : dataset) (s : string) : list string :=
  remove_unused_categories
    (astype_category (szbin_dtype d) (map Plots.szbin (records d)))
    (map Plots.szbin (Plots.partition (records d) s)).

Definition svtype_categories (d : dataset) (s : string) : list string :=
  remove_unused_categories
    (astype_category (svtype_dtype d) (map Plots.svtype (records d)))
    (map Plots.svtype (Plots.partition (records d) s)).

(** The number of rows that fall in a category of szbin and in a category
    of svtype. *)
Definition bar_height (dat : list Plots.row) (x hue : string) : nat :=
  List.length
    (filter (fun r => String.eqb (Plots.szbin r) x
                      && String.eqb (Plots.svtype r) hue) dat).

(** The bars of one hue: one for each category of szbin in which a row of
    that hue falls. *)
Definition hue_bars (dat : list Plots.row) (x_cats : list string) (hue : string)
    : list (string * string * nat) :=
  flat_map (fun x => match bar_height dat x hue with
                     | O => []
                     | S _ as n => [(x, hue, n)]
                     end) x_cats.

(** [sb.countplot(data=dat, x="szbin", hue="svtype")], as seaborn 0.13
    draws it: the rows are counted by szbin within each category of
    svtype, and the counts are drawn hue by hue; a pair of categories that
    no row has gets no bar. *)
Definition countplot (dat : list Plots.row) (x_cats hue_cats : list string)
    : list (string * string * nat) :=
  flat_map (hue_bars dat x_cats) hue_cats.

Definition bars (d : dataset) (s : string) : list (string * string * nat) :=
  countplot (Plots.partition (records d) s)
    (szbin_categories d s) (svtype_categories d s).

(** What pandas keeps true of a categorical column: its categories are
    distinct and every value is one of them. *)
Definition categorical_ok (d : dtype) (vals : list string) : Prop :=
  match d with
  | Object => True
  | Categorical cats => NoDup cats /\ forall v, In v vals -> In v cats
  end.

Definition dataset_ok (d : dataset) : Prop :=
  categorical_ok (szbin_dtype d) (map Plots.szbin (records d))
  /\ categorical_ok (svtype_dtype d) (map Plots.svtype (records d)).

End Categories.

(** ** Runs of the pipeline driver *)

Module Runs.

(** The child never writes to stdout after it has written to stderr. *)
Fixpoint stdout_first (l : list (Driver.stream * string)) : bool :=
  match l with
  | [] => true
  | (Driver.Stdout, _) :: l' => stdout_first l'
  | (Driver.Stderr, _) :: l' =>
      forallb (fun e => Driver.stream_eqb (fst e) Driver.Stderr) l'
  end.

(** Opening the template or the output file, or writing the latter. *)
Definition opens_file (e : Driver.event) : bool :=
  match e with
  | Driver.OpenRead _ | Driver.OpenWrite _ | Driver.Wrote _ _ => true
  | _ => false
  end.

(** The pieces of literal text put end to end. *)
Definition joined (pieces : list string) : string :=
  fold_right String.append EmptyString pieces.


End Runs.

(** ** Proof steps *)


(** * Concrete inputs used below *)

(** Two regions, no header line:
[[
chr1	0	100	6	5	1	1
chr1	100	200	4	3	1	0
]] *)
Definition two_regions : Aggregator.tsv :=
  [["chr1"; "0"; "100"; "6"; "5"; "1"; "1"];
   ["chr1"; "100"; "200"; "4"; "3"; "1"; "0"]]%string.

(** A label line followed by rows that sum to tpbase=10, tp=8, fn=2, fp=1. *)
Definition labelled_regions : Aggregator.tsv :=
  (["0"; "1"; "2"; "tpbase"; "tp"; "fn"; "fp"] :: two_regions)%string.

(** A table of three columns. *)
Definition bed_only : Aggregator.tsv :=
  [["chrom"; "start"; "end"]; ["chr1"; "0"; "100"]]%string.

(** Three calls, each in a different outcome state. *)
Definition mixed_rows : list Plots.row :=
  [Plots.mkRow "tp" "DEL" "[50,100)"; Plots.mkRow "fp" "INS" "[100,200)";
   Plots.mkRow "fn" "DEL" "[50,100)"]%string.

(** A child that writes to both streams in turn and fails. *)
Definition chatty_child : Driver.child :=
  Driver.mkChild
    [(Driver.Stderr, "Building DAG of jobs..."); (Driver.Stdout, "rule all");
     (Driver.Stderr, "Error in rule bench"); (Driver.Stdout, "1 of 3 steps")]%string
    1.

(** The driver is scheduled after each line the child writes. *)
Definition eager_schedule : list Driver.turn :=
  [Driver.ChildTurn; Driver.DriverTurn; Driver.ChildTurn; Driver.DriverTurn;
   Driver.ChildTurn; Driver.DriverTurn; Driver.ChildTurn; Driver.DriverTurn;
   Driver.DriverTurn; Driver.DriverTurn; Driver.DriverTurn; Driver.DriverTurn;
   Driver.DriverTurn].

(** A child that writes 3000 lines of 24 bytes to stderr, 72000 bytes in
    all, then one line to stdout, and succeeds. *)
Definition flooding_child : Driver.child :=
  Driver.mkChild
    (repeat (Driver.Stderr, "Finished job 17 of 3000."%string) 3000
     ++ [(Driver.Stdout, "3000 of 3000 steps (100%) done"%string)])
    0.

(** A child that writes two lines and succeeds. *)
Definition quiet_child : Driver.child :=
  Driver.mkChild
    [(Driver.Stdout, "rule all"); (Driver.Stderr, "Complete log: snakemake.log")]%string
    0.

Definition nl : string := String (ascii_of_nat 10) EmptyString.

Definition report_csv : Driver.frame :=
  Driver.mkCsv ["svtype"; "precision"; "recall"]%string
    [["DEL"; "0.95"; "0.9"]]%string.

Definition report_table : string :=
  ("| svtype   |   precision |   recall |" ++ nl ++
   "|:---------|------------:|---------:|" ++ nl ++
   "| DEL      |      0.9500 |   0.9000 |")%string.

Definition versions (dist : string) : Driver.lib string :=
  if String.eqb dist "snakemake" then Driver.Returns "7.25.0"%string
  else if String.eqb dist "pandas" then Driver.Returns "2.0.1"%string
  else if String.eqb dist "tabulate" then Driver.Returns "0.9.0"%string
  else Driver.Raises (DistributionNotFound dist).

(** A template that uses each key once, all as plain placeholders:
[[
# {pipeline_name} ({pipeline_version}), run on {date_of_run}
snakemake {snakemake_version}, truvari {truvari_version}, pandas {pandas_version}, tabulate {tabulate_version}
{summary_table}
]] *)
Definition readme_segments : list Driver.segment :=
  [Driver.Lit "# "; Driver.plain "pipeline_name";
   Driver.Lit " ("; Driver.plain "pipeline_version";
   Driver.Lit "), run on "; Driver.plain "date_of_run";
   Driver.Lit nl; Driver.Lit "snakemake "; Driver.plain "snakemake_version";
   Driver.Lit ", truvari "; Driver.plain "truvari_version";
   Driver.Lit ", pandas "; Driver.plain "pandas_version";
   Driver.Lit ", tabulate "; Driver.plain "tabulate_version";
   Driver.Lit nl; Driver.plain "summary_table"; Driver.Lit nl]%string.

(** The same template with [By {author}] before it. *)
Definition author_segments : list Driver.segment :=
  (Driver.Lit "By "%string :: Driver.plain "author"%string :: readme_segments).

(** A template that uses each key once and takes the first character of
    the table:
[[
{pipeline_name} {pipeline_version} {date_of_run} {snakemake_version} {truvari_version} {pandas_version} {tabulate_version} {summary_table[0]}
]] *)
Definition indexed_segments : list Driver.segment :=
  [Driver.plain "pipeline_name"; Driver.Lit " "; Driver.plain "pipeline_version";
   Driver.Lit " "; Driver.plain "date_of_run";
   Driver.Lit " "; Driver.plain "snakemake_version";
   Driver.Lit " "; Driver.plain "truvari_version";
   Driver.Lit " "; Driver.plain "pandas_version";
   Driver.Lit " "; Driver.plain "tabulate_version";
   Driver.Lit " "; Driver.Field (Driver.mkField "summary_table" [0])]%string.

Definition world_with (skip : bool) (c : Driver.child) (csv_there template_there : bool)
    (segs : list Driver.segment) (write_error : option exn) : Driver.world :=
  Driver.mkWorld skip (Driver.Returns c) csv_there (Driver.Returns report_csv)
    (fun _ => Driver.Returns report_table) template_there "2023-04-26"
    versions (Driver.Returns (Driver.Wellformed segs)) write_error.

(** Everything is in place. *)
Definition good_world : Driver.world :=
  world_with false quiet_child true true readme_segments None.

(** The workflow fails; the CSV report of an earlier run is there, the
    template is not. *)
Definition failed_workflow_world : Driver.world :=
  world_with false chatty_child true false readme_segments None.



(** The template names a placeholder the driver does not fill. *)
Definition author_world : Driver.world :=
  world_with true quiet_child true true author_segments None.

(** The output file cannot be written. *)
Definition read_only_world : Driver.world :=
  world_with true quiet_child true true readme_segments
    (Some (OSError "[Errno 13] Permission denied: 'giab-evaluation-README.md'")).

(** The template takes one character of the table. *)
Definition indexed_world : Driver.world :=
  world_with true quiet_child true true indexed_segments None.

(** Four calls; szbin is loaded as a categorical that has a category no
    call falls in, svtype as plain strings. *)
Definition mixed_data : Categories.dataset :=
  Categories.mkData
    (Plots.mkRow "tp" "INS" "[100,200)" :: mixed_rows)
    Categories.Object
    (Categories.Categorical ["[50,100)"; "[100,200)"; "[200,300)"]%string).

(** A template that uses two of the keys:
[[
Run of {date_of_run}
{summary_table}
]] *)
Definition short_segments : list Driver.segment :=
  [Driver.Lit "Run of "; Driver.plain "date_of_run"; Driver.Lit nl;
   Driver.plain "summary_table"]%string.

Definition short_world : Driver.world :=
  world_with true quiet_child true true short_segments None.

(** The workflow is skipped and the snakemake package is not installed. *)
Definition no_snakemake_world : Driver.world :=
  Driver.mkWorld true (Driver.Raises (FileNotFoundError "snakemake")) true
    (Driver.Returns report_csv) (fun _ => Driver.Returns report_table) true
    "2023-04-26"
    (fun d => if String.eqb d "snakemake"
              then Driver.Raises (DistributionNotFound "snakemake")
              else versions d)
    (Driver.Returns (Driver.Wellformed readme_segments)) None.



(** * Facts about the metrics aggregator *)

Import Aggregator.
Arguments mkMetrics {rate} precision recall f1.

Lemma nth_pad (n : nat) : forall (i : nat) (l : line),
  i < n -> nth i (pad n l) EmptyString = nth i l EmptyString.
Proof.
  induction n as [|n IH]; intros i l Hi; [lia|].
  destruct l as [|c l]; destruct i as [|i]; simpl; try reflexivity.
  - rewrite IH by lia. destruct i; reflexivity.
  - apply IH. lia.
Qed.

Lemma parse_cells_map {A} (g : A -> string) : forall (l : list A) (zs : list Z),
  parse_cells (map g l) = Some zs ->
  zs = map (fun a => match parse_int64 (g a) with Some z => z | None => 0%Z end) l.
Proof.
  induction l as [|a l IH]; simpl; intros zs H.
  - now inversion H.
  - destruct (parse_int64 (g a)) as [z|]; [|discriminate].
    destruct (parse_cells (map g l)) as [zs'|]; [|discriminate].
    inversion H; subst. f_equal. now apply IH.
Qed.

(** The sum of column [i] of the data rows is the total of that column
    over the lines that follow the label line. *)
Lemma sum_cells_total (n i : nat) (rows : list line) (z : Z) :
  i < n ->
  sum_cells (map (fun r => nth i r EmptyString) (map (pad n) rows)) = Ok z ->
  z = column_total i rows.
Proof.
  intros Hi. unfold sum_cells, column_total. rewrite map_map.
  destruct (parse_cells _) as [zs|] eqn:E; [|discriminate].
  intros H. inversion H; subst. apply parse_cells_map in E. subst zs.
  f_equal. apply map_ext. intros r. now rewrite nth_pad.
Qed.

Lemma column_of_names (rows : list line) (i : nat) (label : string) :
  index_of label names = Some i ->
  column (mkFrame names rows) label = Ok (map (fun r => nth i r EmptyString) rows).
Proof. intros H. unfold column. cbn [columns values]. now rewrite H. Qed.

(** Whenever sums are computed, they are the totals of the fourth to
    seventh fields over the lines that follow the first line that is not
    blank. *)
Lemma computed_sums_later_lines (ls : tsv) (hdr : line) (rest : list line)
    (s : Series) :
  filter (fun l => negb (is_blank l)) ls = hdr :: rest ->
  computed_sums (Some ls) = Ok s ->
  s = headerless_sums rest.
Proof.
  intros Hf. unfold computed_sums, read_csv. rewrite Hf.
  destruct (forallb _ _); [|discriminate].
  unfold set_columns. simpl columns.
  destruct (List.length names =? List.length hdr) eqn:El; [|discriminate].
  apply Nat.eqb_eq in El. rewrite <- El. change (List.length names) with 7.
  set (rows := map (pad 7) rest).
  unfold sum_columns. cbn [values].
  rewrite (column_of_names rows 3 "tpbase" eq_refl),
    (column_of_names rows 4 "tp" eq_refl),
    (column_of_names rows 5 "fn" eq_refl),
    (column_of_names rows 6 "fp" eq_refl).
  destruct (sum_cells (map (fun r => nth 3 r EmptyString) rows)) as [a| |] eqn:Ea;
    try discriminate.
  destruct (sum_cells (map (fun r => nth 4 r EmptyString) rows)) as [b| |] eqn:Eb;
    try discriminate.
  destruct (sum_cells (map (fun r => nth 5 r EmptyString) rows)) as [c| |] eqn:Ec;
    try discriminate.
  destruct (sum_cells (map (fun r => nth 6 r EmptyString) rows)) as [d| |] eqn:Ed;
    try discriminate.
  intros H. inversion H; subst. unfold headerless_sums.
  apply sum_cells_total in Ea, Eb, Ec, Ed; try lia. now subst.
Qed.

(** C1: the aggregator is claimed to read its file as one without a header
    row and to sum the four count columns over all the rows of the file.
    On the two-line file [two_regions] the script takes the first region
    for the label line: it computes the sums of the second region alone,
    (4, 3, 1, 0), where the sums over all rows are (10, 8, 2, 1). *)
Theorem first_region_is_not_summed :
  computed_sums (Some two_regions)
    = Ok [("tpbase", 4); ("tp", 3); ("fn", 1); ("fp", 0)]%string%Z
  /\ headerless_sums two_regions
    = [("tpbase", 10); ("tp", 8); ("fn", 2); ("fp", 1)]%string%Z.
Proof. split; reflexivity. Qed.

Lemma sum_columns_labels (df : DataFrame) (s : Series) :
  sum_columns df ["tpbase"; "tp"; "fn"; "fp"]%string = Ok s ->
  exists tpbase tp fn fp : Z,
    s = [("tpbase", tpbase); ("tp", tp); ("fn", fn); ("fp", fp)]%string.
Proof.
  unfold sum_columns.
  destruct (column df "tpbase") as [c1| |]; try discriminate.
  destruct (sum_cells c1) as [a| |]; try discriminate.
  destruct (column df "tp") as [c2| |]; try discriminate.
  destruct (sum_cells c2) as [b| |]; try discriminate.
  destruct (column df "fn") as [c3| |]; try discriminate.
  destruct (sum_cells c3) as [c| |]; try discriminate.
  destruct (column df "fp") as [c4| |]; try discriminate.
  destruct (sum_cells c4) as [d| |]; try discriminate.
  intros H. inversion H. now exists a, b, c, d.
Qed.

(** C6: for every input, the one row the aggregator prints holds exactly
    the three values [performance_metrics] returns on the four computed
    sums, passed in the order tpbase, tp, fn, fp; when no sums are
    computed nothing is printed. *)
Theorem printed_rates_are_the_formula_on_the_sums
    (rate : Type) (performance_metrics : Z -> Z -> Z -> Z -> rate * rate * rate)
    (f : option tsv) :
  match computed_sums f with
  | Ok sums =>
      exists tpbase tp fn fp : Z,
        sums = [("tpbase", tpbase); ("tp", tp); ("fn", fn); ("fp", fp)]%string
        /\ let '(p, r, f1) := performance_metrics tpbase tp fn fp in
           run rate performance_metrics f
           = (Ok tt, [Summed sums; Called tpbase tp fn fp;
                      Printed (mkMetrics p r f1)])
  | Raise e => run rate performance_metrics f = (Raise e, [])
  | Beyond => run rate performance_metrics f = (Beyond, [])
  end.
Proof.
  unfold computed_sums, run, script, bind, lift.
  destruct (read_csv f) as [df| |]; try reflexivity.
  destruct (set_columns df names) as [df'| |]; try reflexivity.
  destruct (sum_columns df' _) as [sums| |] eqn:Es; try reflexivity.
  destruct (sum_columns_labels _ _ Es) as (a & b & c & d & ->).
  exists a, b, c, d. split; [reflexivity|].
  simpl. destruct (performance_metrics a b c d) as [[p r] f1]. reflexivity.
Qed.

(** The figures of the specification: rows summing to (10, 8, 2, 1). *)
Example rates_of_labelled_regions
    (rate : Type) (performance_metrics : Z -> Z -> Z -> Z -> rate * rate * rate) :
  printed rate (snd (run rate performance_metrics (Some labelled_regions)))
  = [let '(p, r, f1) := performance_metrics 10 8 2 1 in mkMetrics p r f1]%Z.
Proof.
  vm_compute. destruct (performance_metrics 10 8 2 1)%Z as [[p r] f1].
  reflexivity.
Qed.

(** C9: when the table that was parsed does not have exactly seven
    columns, the assignment of the seven names raises [ValueError] and the
    run ends there: no sum has been computed, nothing has been printed. *)
Theorem wrong_column_count_raises
    (rate : Type) (performance_metrics : Z -> Z -> Z -> Z -> rate * rate * rate)
    (f : option tsv) (df : DataFrame) :
  read_csv f = Ok df ->
  List.length (columns df) <> 7 ->
  run rate performance_metrics f = (Raise (ValueError "Length mismatch"), [])
  /\ summed rate (snd (run rate performance_metrics f)) = []
  /\ printed rate (snd (run rate performance_metrics f)) = [].
Proof.
  intros Hr Hn.
  assert (E : run rate performance_metrics f
              = (Raise (ValueError "Length mismatch"), [])).
  { unfold run, script, bind, lift. rewrite Hr. unfold set_columns.
    change (List.length names) with 7.
    destruct (7 =? List.length (columns df)) eqn:E; [|reflexivity].
    apply Nat.eqb_eq in E. congruence. }
  rewrite E. repeat split.
Qed.

Lemma wrong_column_count_raises_witness :
  read_csv (Some bed_only)
    = Ok (mkFrame ["chrom"; "start"; "end"] [["chr1"; "0"; "100"]])%string
  /\ run unit (fun _ _ _ _ => (tt, tt, tt)) (Some bed_only)
     = (Raise (ValueError "Length mismatch"), []).
Proof.
  split; [reflexivity|].
  refine (proj1 (wrong_column_count_raises unit (fun _ _ _ _ => (tt, tt, tt))
           (Some bed_only)
           (mkFrame ["chrom"; "start"; "end"] [["chr1"; "0"; "100"]])%string _ _)).
  - reflexivity.
  - simpl. lia.
Defined.

(** * Facts about the plot renderer *)

Import Plots.

Lemma states_distinct : NoDup states.
Proof.
  unfold states.
  repeat (constructor; [simpl; intuition discriminate|]). constructor.
Qed.

(** A row is selected by one label at most. *)
Lemma panels_of_at_most_one (r : row) : List.length (panels_of r) <= 1.
Proof.
  unfold panels_of, states, selects. simpl.
  destruct (String.eqb_spec (state r) "tpbase") as [E1|_];
    destruct (String.eqb_spec (state r) "tp") as [E2|_];
    destruct (String.eqb_spec (state r) "fp") as [E3|_];
    destruct (String.eqb_spec (state r) "fn") as [E4|_];
    simpl; try lia; congruence.
Qed.

Lemma partition_cons (s : string) (r : row) (data : list row) :
  List.length (partition (r :: data) s)
  = (if selects s r then 1 else 0) + List.length (partition data s).
Proof. unfold partition. simpl. now destruct (selects s r). Qed.

Lemma figure_rows (data : list row) :
  map rows (figure data) = map (partition data) states.
Proof. reflexivity. Qed.

Lemma partitions_total (data : list row) :
  list_sum (map (fun s => List.length (partition data s)) states)
  <= List.length data.
Proof.
  induction data as [|r data IH]; [simpl; lia|].
  pose proof (panels_of_at_most_one r) as H1.
  unfold panels_of, states in H1. unfold states in *.
  cbn [map list_sum] in *. rewrite !partition_cons.
  cbn [filter] in H1.
  destruct (selects "tpbase" r), (selects "tp" r), (selects "fp" r),
    (selects "fn" r); simpl in *; lia.
Qed.

Lemma panel_rows (data : list row) (i : nat) (p : panel) :
  nth_error (figure data) i = Some p ->
  exists s : string, nth_error states i = Some s /\ rows p = partition data s.
Proof.
  intros H.
  assert (E : nth_error (map rows (figure data)) i = Some (rows p))
    by (rewrite nth_error_map, H; reflexivity).
  rewrite figure_rows, nth_error_map in E.
  destruct (nth_error states i) as [s|]; [|discriminate].
  exists s. split; [reflexivity|]. simpl in E. congruence.
Qed.

(** C10: the four labels of the loop are pairwise distinct; hence two
    different panels never hold the same row, every row is drawn in one
    panel at most, and the four panels together hold no more rows than the
    dataset has. *)
Theorem state_partitions_are_disjoint :
  NoDup states
  /\ (forall (data : list row) (i j : nat) (p q : panel) (r : row),
        nth_error (figure data) i = Some p ->
        nth_error (figure data) j = Some q ->
        i <> j ->
        In r (rows p) -> ~ In r (rows q))
  /\ (forall r : row, List.length (panels_of r) <= 1)
  /\ (forall data : list row,
        list_sum (map (fun p => List.length (rows p)) (figure data))
        <= List.length data).
Proof.
  split; [exact states_distinct|]. split; [|split].
  - intros data i j p q r Hp Hq Hne H1 H2.
    destruct (panel_rows _ _ _ Hp) as (s1 & Hs1 & E1).
    destruct (panel_rows _ _ _ Hq) as (s2 & Hs2 & E2).
    rewrite E1 in H1. rewrite E2 in H2.
    unfold partition in H1, H2.
    apply filter_In in H1, H2. destruct H1 as [_ H1], H2 as [_ H2].
    unfold selects in H1, H2. apply String.eqb_eq in H1, H2.
    assert (s1 = s2) by congruence. subst s2.
    apply Hne.
    apply (proj1 (NoDup_nth_error states) states_distinct).
    + apply nth_error_Some. congruence.
    + congruence.
  - exact panels_of_at_most_one.
  - intros data. rewrite <- (map_map rows (@List.length row)), figure_rows, map_map.
    apply partitions_total.
Qed.

Lemma state_partitions_are_disjoint_witness :
  ~ In (mkRow "tp" "DEL" "[50,100)") (rows (draw 2 "fp" mixed_rows)).
Proof.
  refine (proj1 (proj2 state_partitions_are_disjoint) mixed_rows 1 2
            (draw 1 "tp" mixed_rows) (draw 2 "fp" mixed_rows)
            (mkRow "tp" "DEL" "[50,100)") eq_refl eq_refl _ _).
  - discriminate.
  - simpl. auto.
Defined.

(** * Facts about the pipeline driver *)

Import Driver.

(** ** Draining the two pipes of the child *)

Lemma lines_of_app (st : stream) (a b : list (stream * string)) :
  lines_of st (a ++ b) = lines_of st a ++ lines_of st b.
Proof. unfold lines_of. now rewrite filter_app, map_app. Qed.

Lemma lines_of_tag_same (st : stream) (l : list string) :
  lines_of st (tag st l) = l.
Proof.
  unfold lines_of, tag. induction l as [|a l IH]; [reflexivity|].
  simpl. destruct st; simpl; now rewrite IH.
Qed.

Lemma lines_of_tag_other (st st' : stream) (l : list string) :
  stream_eqb st' st = false -> lines_of st (tag st' l) = [].
Proof.
  intros H. unfold lines_of, tag. induction l as [|a l IH]; [reflexivity|].
  simpl. now rewrite H.
Qed.

Lemma lines_of_length (l : list (stream * string)) :
  List.length (lines_of Stdout l) + List.length (lines_of Stderr l) = List.length l.
Proof.
  unfold lines_of. induction l as [|[[|] x] l IH]; simpl in *; lia.
Qed.

Lemma tag_app (st : stream) (a b : list string) :
  tag st (a ++ b) = tag st a ++ tag st b.
Proof. apply map_app. Qed.

Lemma is_prefix_app (p q : list string) : is_prefix p (p ++ q).
Proof. induction p as [|a p IH]; simpl; auto. Qed.

Lemma drain_invariant_start (c : child) : drain_invariant c (start c).
Proof. unfold drain_invariant, start. simpl. repeat split. Qed.

Lemma drain_invariant_child (capacity : N) (c : child) (s : pstate) :
  drain_invariant c s -> drain_invariant c (child_step capacity s).
Proof.
  intros Hs. pose proof Hs as (Ho & He & Hf & Hp).
  destruct s as [pend out err ph fwd].
  cbn [pending out_pipe err_pipe at_phase forwarded] in Ho, He, Hf, Hp.
  (* while the child has something to write, the driver is in its first loop *)
  assert (Hph : pend <> [] ->
                match ph with
                | DrainStdout => lines_of Stderr fwd = []
                | _ => False
                end).
  { intros Hne. destruct ph; try exact Hp; destruct Hp as (_ & H);
      try destruct H as (_ & H); contradiction. }
  unfold child_step. cbn [pending out_pipe err_pipe at_phase forwarded].
  destruct pend as [|[[|] l] rest]; [exact Hs| |].
  - specialize (Hph ltac:(discriminate)).
    assert (W : drain_invariant c (mkP rest (out ++ [l]) err ph fwd)).
    { unfold drain_invariant. simpl.
      unfold lines_of in Ho, He |- *. simpl in Ho, He.
      repeat split; try assumption.
      - rewrite Ho, <- !app_assoc. reflexivity.
      - destruct ph; try contradiction. exact Hph. }
    destruct out as [|o out']; [exact W|].
    destruct (has_room capacity (o :: out') l); [exact W|exact Hs].
  - specialize (Hph ltac:(discriminate)).
    destruct (has_room capacity err l); [|exact Hs].
    unfold drain_invariant. simpl.
    unfold lines_of in Ho, He |- *. simpl in Ho, He.
    repeat split; try assumption.
    + rewrite He, <- !app_assoc. reflexivity.
    + destruct ph; try contradiction. exact Hph.
Qed.

Lemma drain_invariant_driver (c : child) (s : pstate) :
  drain_invariant c s -> drain_invariant c (driver_step s).
Proof.
  unfold drain_invariant, driver_step, exited.
  destruct s as [pend out err ph fwd]. simpl.
  intros (Ho & He & Hf & Hp).
  destruct ph; simpl.
  - destruct out as [|l q]; simpl.
    + destruct pend; simpl; repeat split; auto.
    + rewrite !lines_of_app.
      change (lines_of Stdout [(Stdout, l)]) with [l].
      change (lines_of Stderr [(Stdout, l)]) with (@nil string).
      rewrite app_nil_r. repeat split; try assumption.
      * rewrite Ho, <- !app_assoc. reflexivity.
      * rewrite Hp, tag_app. simpl. rewrite app_nil_r.
        rewrite Hf at 1. rewrite Hp. simpl. now rewrite app_nil_r.
  - destruct Hp as (Hout & Hpend). subst out pend.
    destruct err as [|l q]; simpl.
    + repeat split; auto.
    + rewrite !lines_of_app.
      change (lines_of Stdout [(Stderr, l)]) with (@nil string).
      change (lines_of Stderr [(Stderr, l)]) with [l].
      repeat split; try assumption.
      * rewrite Ho, <- app_assoc. reflexivity.
      * rewrite He, <- app_assoc. reflexivity.
      * rewrite app_nil_r, tag_app, app_assoc, <- Hf. reflexivity.
  - destruct Hp as (-> & -> & ->). simpl. repeat split; auto.
  - repeat split; tauto.
Qed.

Lemma drain_invariant_step (capacity : N) (c : child) (t : turn) (s : pstate) :
  drain_invariant c s -> drain_invariant c (step capacity t s).
Proof.
  destruct t; simpl.
  - apply drain_invariant_child.
  - apply drain_invariant_driver.
Qed.

Lemma drain_invariant_run (capacity : N) (c : child) (schedule : list turn) :
  forall s : pstate,
  drain_invariant c s ->
  drain_invariant c (fold_left (fun s t => step capacity t s) schedule s).
Proof.
  induction schedule as [|t schedule IH]; intros s H; [exact H|].
  simpl. apply IH. now apply drain_invariant_step.
Qed.

Lemma drain_invariant_exec (capacity : N) (c : child) (schedule : list turn) :
  drain_invariant c (exec capacity c schedule).
Proof. apply drain_invariant_run, drain_invariant_start. Qed.

(** The driver is past its first loop only when the child has exited. *)
Lemma past_stdout_exited (c : child) (s : pstate) :
  drain_invariant c s -> at_phase s <> DrainStdout -> exited s = true.
Proof.
  intros (_ & _ & _ & Hp) Hne. unfold exited.
  destruct (at_phase s); [contradiction| | |].
  - destruct Hp as (_ & ->). reflexivity.
  - destruct Hp as (_ & _ & ->). reflexivity.
  - destruct Hp as (_ & _ & ->). reflexivity.
Qed.

(** What a run that is over has forwarded. *)
Lemma finished_forwarded (c : child) (s : pstate) :
  drain_invariant c s -> at_phase s = Finished ->
  forwarded s
  = tag Stdout (lines_of Stdout (emits c)) ++ tag Stderr (lines_of Stderr (emits c)).
Proof.
  intros (Ho & He & Hf & Hp) Hfin. rewrite Hfin in Hp.
  destruct Hp as (E1 & E2 & E3).
  rewrite Ho, He, E1, E2, E3. simpl. rewrite !app_nil_r. exact Hf.
Qed.

(** ** Pipes that fill up *)

Lemma pipe_bytes_app (p q : list string) :
  pipe_bytes (p ++ q) = (pipe_bytes p + pipe_bytes q)%N.
Proof. induction p as [|l p IH]; simpl; [reflexivity|]. rewrite IH. lia. Qed.

Lemma stderr_bytes_cons (st : stream) (l : string) (rest : list (stream * string)) :
  stderr_bytes ((st, l) :: rest)
  = ((if stream_eqb st Stderr then N.of_nat (String.length l) else 0)
     + stderr_bytes rest)%N.
Proof. unfold stderr_bytes, lines_of, pipe_bytes. destruct st; reflexivity. Qed.

Lemma stderr_fits_start (capacity : N) (c : child) :
  (stderr_bytes (emits c) <= capacity)%N -> stderr_fits capacity (start c).
Proof. intros H _. exact H. Qed.

Lemma stderr_fits_child (capacity : N) (s : pstate) :
  stderr_fits capacity s -> stderr_fits capacity (child_step capacity s).
Proof.
  unfold stderr_fits, child_step.
  destruct s as [pend out err ph fwd]. cbn [pending out_pipe err_pipe at_phase].
  intros H.
  destruct pend as [|[[|] l] rest]; [exact H| |].
  - rewrite stderr_bytes_cons in H. cbn [stream_eqb] in H.
    destruct out as [|o out']; [exact H|].
    destruct (has_room capacity (o :: out') l); [exact H|].
    cbn [pending err_pipe at_phase]. now rewrite stderr_bytes_cons.
  - rewrite stderr_bytes_cons in H. cbn [stream_eqb] in H.
    destruct (has_room capacity err l).
    + cbn [pending err_pipe at_phase]. intros E. specialize (H E).
      rewrite pipe_bytes_app. unfold pipe_bytes at 2. cbn [fold_right].
      lia.
    + cbn [pending err_pipe at_phase]. now rewrite stderr_bytes_cons.
Qed.

Lemma stderr_fits_driver (s : pstate) (capacity : N) :
  stderr_fits capacity s -> stderr_fits capacity (driver_step s).
Proof.
  unfold stderr_fits, driver_step.
  destruct s as [pend out err ph fwd]. cbn [pending out_pipe err_pipe at_phase].
  intros H. destruct ph.
  - destruct out as [|l q]; [|exact H].
    destruct (exited _); [discriminate|exact H].
  - destruct err as [|l q]; [|discriminate].
    destruct (exited _); discriminate.
  - destruct (exited _); discriminate.
  - discriminate.
Qed.

Lemma stderr_fits_run (capacity : N) (schedule : list turn) : forall s : pstate,
  stderr_fits capacity s ->
  stderr_fits capacity (fold_left (fun s t => step capacity t s) schedule s).
Proof.
  induction schedule as [|t schedule IH]; intros s H; [exact H|].
  simpl. apply IH. destruct t; simpl.
  - now apply stderr_fits_child.
  - now apply stderr_fits_driver.
Qed.

(** While what it has to write to stderr fits, the child writes its next
    stderr line when it is its turn. *)
Lemma child_step_stderr (capacity : N) (s : pstate) (l : string)
    (rest : list (stream * string)) :
  stderr_fits capacity s ->
  at_phase s = DrainStdout ->
  pending s = (Stderr, l) :: rest ->
  child_step capacity s
  = mkP rest (out_pipe s) (err_pipe s ++ [l]) (at_phase s) (forwarded s).
Proof.
  intros H Hph Hp. unfold child_step. rewrite Hp.
  specialize (H Hph). rewrite Hp, stderr_bytes_cons in H. cbn [stream_eqb] in H.
  unfold has_room.
  destruct (N.leb_spec (pipe_bytes (err_pipe s) + N.of_nat (String.length l))
              capacity); [reflexivity|lia].
Qed.

(** One turn of the child and one of the driver bring the run nearer to
    its end. *)
Lemma round_progress (capacity : N) (c : child) (s : pstate) :
  drain_invariant c s ->
  stderr_fits capacity s ->
  at_phase s <> Finished ->
  work_left (driver_step (child_step capacity s)) < work_left s.
Proof.
  intros Hinv Hfit Hne.
  pose proof (child_step_stderr capacity s) as Herr.
  destruct Hinv as (_ & _ & _ & Hp).
  destruct s as [pend out err ph fwd].
  cbn [pending out_pipe err_pipe at_phase forwarded] in *.
  destruct ph.
  - destruct pend as [|[[|] l] rest].
    + unfold child_step, driver_step, work_left, exited. simpl.
      destruct out; simpl; lia.
    + unfold child_step. cbn [pending out_pipe].
      destruct out as [|o out'].
      * unfold driver_step, work_left. simpl. lia.
      * destruct (has_room capacity (o :: out') l);
          unfold driver_step, work_left; simpl; rewrite ?length_app; simpl; lia.
    + rewrite (Herr l rest Hfit eq_refl eq_refl).
      unfold driver_step, work_left, exited. simpl.
      destruct out as [|o out']; simpl.
      * destruct rest; simpl; rewrite ?length_app; simpl; lia.
      * rewrite ?length_app; simpl; lia.
  - destruct Hp as (-> & ->).
    unfold child_step, driver_step, work_left, exited. simpl.
    destruct err; simpl; lia.
  - destruct Hp as (-> & -> & ->).
    unfold child_step, driver_step, work_left, exited. simpl. lia.
  - contradiction.
Qed.

Lemma finished_stays (capacity : N) (c : child) (t : turn) (s : pstate) :
  drain_invariant c s -> at_phase s = Finished ->
  at_phase (step capacity t s) = Finished.
Proof.
  intros (_ & _ & _ & Hp) Hfin. rewrite Hfin in Hp. destruct Hp as (_ & _ & Hpend).
  destruct t; simpl.
  - unfold child_step. rewrite Hpend. exact Hfin.
  - unfold driver_step. rewrite Hfin. exact Hfin.
Qed.

(** Taking turns, child and driver come to the end of the run when what
    the child writes to stderr fits into the pipe. *)
Lemma alternate_finishes (capacity : N) (c : child) (n : nat) : forall s : pstate,
  drain_invariant c s ->
  stderr_fits capacity s ->
  work_left s <= n ->
  at_phase (fold_left (fun s t => step capacity t s) (alternate n) s) = Finished.
Proof.
  induction n as [|n IH]; intros s Hinv Hfit Hw.
  - unfold work_left in Hw. simpl. destruct (at_phase s); try reflexivity; lia.
  - cbn [alternate fold_left step].
    assert (Hinv' : drain_invariant c (driver_step (child_step capacity s)))
      by now apply drain_invariant_driver, drain_invariant_child.
    assert (Hfit' : stderr_fits capacity (driver_step (child_step capacity s)))
      by now apply stderr_fits_driver, stderr_fits_child.
    apply IH; try assumption.
    destruct (at_phase s) eqn:E.
    + pose proof (round_progress capacity c s Hinv Hfit) as P.
      rewrite E in P. specialize (P ltac:(discriminate)). lia.
    + pose proof (round_progress capacity c s Hinv Hfit) as P.
      rewrite E in P. specialize (P ltac:(discriminate)). lia.
    + pose proof (round_progress capacity c s Hinv Hfit) as P.
      rewrite E in P. specialize (P ltac:(discriminate)). lia.
    + assert (F : at_phase (driver_step (child_step capacity s)) = Finished).
      { apply (finished_stays capacity c DriverTurn).
        - now apply drain_invariant_child.
        - now apply (finished_stays capacity c ChildTurn). }
      destruct Hinv' as (_ & _ & _ & Hp'). rewrite F in Hp'.
      destruct Hp' as (E1 & E2 & E3).
      unfold work_left. rewrite F, E1, E2, E3. simpl. lia.
Qed.

Lemma work_left_bounded (c : child) (s : pstate) :
  drain_invariant c s -> work_left s <= 2 * List.length (emits c) + 3.
Proof.
  intros (Ho & He & _ & _).
  pose proof (lines_of_length (emits c)) as Hc.
  pose proof (lines_of_length (pending s)) as Hs.
  rewrite Ho, He in Hc. rewrite !length_app in Hc.
  unfold work_left. destruct (at_phase s); lia.
Qed.

(** Every run can be brought to its end when the child's stderr fits. *)
Lemma fair_schedule_finishes (capacity : N) (c : child) (schedule : list turn) :
  (stderr_bytes (emits c) <= capacity)%N ->
  at_phase (exec capacity c (schedule ++ fair_schedule c)) = Finished.
Proof.
  intros Hfit. unfold exec, fair_schedule. rewrite fold_left_app.
  apply (alternate_finishes capacity c).
  - apply drain_invariant_run, drain_invariant_start.
  - apply stderr_fits_run, stderr_fits_start, Hfit.
  - apply work_left_bounded, drain_invariant_run, drain_invariant_start.
Qed.

Lemma stderr_floods_start (capacity : N) (c : child) :
  (capacity < stderr_bytes (emits c))%N -> stderr_floods capacity (start c).
Proof.
  intros H. unfold stderr_floods, start. simpl.
  change (pipe_bytes []) with 0%N. repeat split; lia.
Qed.

Lemma stderr_floods_running (capacity : N) (s : pstate) :
  stderr_floods capacity s -> exited s = false.
Proof.
  intros (_ & H1 & H2). unfold exited.
  destruct (pending s); [|reflexivity].
  change (stderr_bytes []) with 0%N in H2. lia.
Qed.

Lemma stderr_floods_step (capacity : N) (t : turn) (s : pstate) :
  stderr_floods capacity s -> stderr_floods capacity (step capacity t s).
Proof.
  intros H. pose proof (stderr_floods_running capacity s H) as Hrun.
  destruct H as (Hph & H1 & H2).
  destruct s as [pend out err ph fwd].
  unfold stderr_floods, exited in *.
  cbn [pending out_pipe err_pipe at_phase] in *. subst ph.
  destruct t; cbn [step].
  - unfold child_step. cbn [pending out_pipe err_pipe].
    destruct pend as [|[[|] l] rest]; [discriminate| |].
    + rewrite stderr_bytes_cons in H2. cbn [stream_eqb] in H2.
      destruct out as [|o out'];
        [|destruct (has_room capacity (o :: out') l)];
        cbn [pending err_pipe at_phase]; rewrite ?stderr_bytes_cons;
        cbn [stream_eqb]; repeat split; lia.
    + rewrite stderr_bytes_cons in H2. cbn [stream_eqb] in H2.
      unfold has_room.
      destruct (N.leb_spec (pipe_bytes err + N.of_nat (String.length l)) capacity)
        as [L|L]; cbn [pending err_pipe at_phase].
      * rewrite pipe_bytes_app. unfold pipe_bytes at 2 4.
        cbn [fold_right]. repeat split; lia.
      * rewrite stderr_bytes_cons. cbn [stream_eqb]. repeat split; lia.
  - unfold driver_step, exited. cbn [pending out_pipe err_pipe at_phase].
    destruct out as [|l q]; cbn [pending err_pipe at_phase].
    + destruct pend; [discriminate|]. cbn [pending err_pipe at_phase].
      repeat split; assumption.
    + repeat split; assumption.
Qed.

(** A child that has more to write to stderr than the pipe holds never
    exits, and the driver never leaves its loop over stdout. *)
Lemma stderr_floods_exec (capacity : N) (c : child) (schedule : list turn) :
  (capacity < stderr_bytes (emits c))%N ->
  stderr_floods capacity (exec capacity c schedule).
Proof.
  intros H. unfold exec. generalize (stderr_floods_start capacity c H).
  generalize (start c). induction schedule as [|t schedule IH]; intros s Hs.
  - exact Hs.
  - simpl. apply IH. now apply stderr_floods_step.
Qed.

Lemma for_each_tell {A} (f : A -> event) (l : list A) :
  for_each l (fun a => tell (f a)) = (Return tt, map f l).
Proof.
  induction l as [|a l IH]; [reflexivity|].
  cbn [for_each]. rewrite IH. reflexivity.
Qed.

Lemma forwards_app (a b : list event) : forwards (a ++ b) = forwards a ++ forwards b.
Proof. unfold forwards. apply flat_map_app. Qed.

Lemma forwards_map (st : stream) (l : list string) :
  forwards (map (Forward st) l) = tag st l.
Proof. induction l as [|a l IH]; [reflexivity|]. simpl. now rewrite IH. Qed.

(** What [run_snakemake_pipeline] does once the child is there. *)
Lemma run_snakemake_pipeline_trace (w : world) (c : child) :
  snakemake w = Returns c ->
  run_snakemake_pipeline w
  = (if (returncode c =? 0)%Z then Return tt else SysExit 1,
     [PrintLine "Running the Snakemake pipeline..."; Popen snakemake_argv]
     ++ map (Forward Stdout) (lines_of Stdout (emits c))
     ++ map (Forward Stderr) (lines_of Stderr (emits c))
     ++ Wait
        :: (if (returncode c =? 0)%Z then []
            else [PrintLine "Snakemake pipeline failed."])).
Proof.
  intros H. unfold run_snakemake_pipeline. rewrite H.
  cbn -[for_each lines_of Z.eqb]. rewrite !for_each_tell.
  destruct (returncode c =? 0)%Z; cbn -[lines_of];
    rewrite ?app_nil_r, <- ?app_assoc; reflexivity.
Qed.

(** What [run_snakemake_pipeline] forwards is what a run of child and
    driver that is over has forwarded. *)
Lemma run_snakemake_pipeline_forwards (w : world) (c : child) :
  snakemake w = Returns c ->
  forwards (snd (run_snakemake_pipeline w))
  = tag Stdout (lines_of Stdout (emits c)) ++ tag Stderr (lines_of Stderr (emits c)).
Proof.
  intros Hw. rewrite (run_snakemake_pipeline_trace w c Hw).
  cbn [snd app].
  change (forwards (?a :: ?b :: ?l)) with (forwards l).
  rewrite !forwards_app, !forwards_map.
  destruct (returncode c =? 0)%Z; simpl; now rewrite app_nil_r.
Qed.

(** The order of what has been forwarded so far, in any state of a run. *)
Lemma forwarded_in_order (c : child) (s : pstate) :
  drain_invariant c s ->
  forwarded s
    = tag Stdout (lines_of Stdout (forwarded s))
      ++ tag Stderr (lines_of Stderr (forwarded s))
  /\ is_prefix (lines_of Stdout (forwarded s)) (lines_of Stdout (emits c))
  /\ is_prefix (lines_of Stderr (forwarded s)) (lines_of Stderr (emits c))
  /\ (lines_of Stderr (forwarded s) <> [] ->
      lines_of Stdout (forwarded s) = lines_of Stdout (emits c)).
Proof.
  intros (Ho & He & Hf & Hp).
  split; [exact Hf|]. split; [rewrite Ho; apply is_prefix_app|].
  split; [rewrite He; apply is_prefix_app|].
  intros Hne. destruct (at_phase s).
  - contradiction.
  - destruct Hp as (E1 & E2). rewrite Ho, E1, E2. simpl. now rewrite app_nil_r.
  - destruct Hp as (E1 & _ & E2). rewrite Ho, E1, E2. simpl. now rewrite app_nil_r.
  - destruct Hp as (E1 & _ & E2). rewrite Ho, E1, E2. simpl. now rewrite app_nil_r.
Qed.

(** A child that has more to write to stderr than the pipe holds: in
    every state of every run it is still running, the driver is in its
    loop over stdout, and no line of stderr has been forwarded. *)
Lemma flood_blocks (capacity : N) (c : child) (schedule : list turn) :
  (capacity < stderr_bytes (emits c))%N ->
  exited (exec capacity c schedule) = false
  /\ at_phase (exec capacity c schedule) = DrainStdout
  /\ lines_of Stderr (forwarded (exec capacity c schedule)) = [].
Proof.
  intros H. pose proof (stderr_floods_exec capacity c schedule H) as F.
  destruct (drain_invariant_exec capacity c schedule) as (_ & _ & _ & Hp).
  split; [exact (stderr_floods_running _ _ F)|].
  destruct F as (Hph & _). split; [exact Hph|]. now rewrite Hph in Hp.
Qed.

(** C8: the claim says that for every run of the child the driver forwards
    the whole of the child's stdout and then the whole of its stderr.
    [flooding_child] writes 72000 bytes to stderr, then a line to stdout,
    and would then exit; a pipe takes 65536 bytes.  The driver reads
    stderr only after the loop over stdout, which ends when the child
    exits; the child cannot exit before its stderr has been read.  So,
    however the two are scheduled, the child is still running, the driver
    is still in its loop over stdout, no line of stderr has been
    forwarded, and what has been forwarded is not what the claim says. *)
Theorem stderr_flood_blocks_the_driver :
  stderr_bytes (emits flooding_child) = 72000%N
  /\ pipe_capacity = 65536%N
  /\ forall schedule : list turn,
       let s := exec pipe_capacity flooding_child schedule in
       exited s = false
       /\ at_phase s = DrainStdout
       /\ lines_of Stderr (forwarded s) = []
       /\ forwarded s
          <> tag Stdout (lines_of Stdout (emits flooding_child))
             ++ tag Stderr (lines_of Stderr (emits flooding_child)).
Proof.
  split; [vm_compute; reflexivity|]. split; [vm_compute; reflexivity|].
  intros schedule s.
  assert (H : (pipe_capacity < stderr_bytes (emits flooding_child))%N)
    by (apply N.ltb_lt; vm_compute; reflexivity).
  destruct (flood_blocks pipe_capacity flooding_child schedule H) as (H1 & H2 & H3).
  fold s in H1, H2, H3. repeat (split; [assumption|]).
  intros E. apply (f_equal (lines_of Stderr)) in E.
  rewrite H3, lines_of_app, lines_of_tag_same, lines_of_tag_other in E
    by reflexivity.
  apply (f_equal (@List.length string)) in E. vm_compute in E. discriminate.
Qed.

(** X17: however the child's writes and the driver's reads interleave, and
    whatever the pipes hold, the lines forwarded so far are lines of the
    child's stdout, in the order the child wrote them, followed by lines
    of its stderr, in the order the child wrote them; a stderr line is
    forwarded only after the whole of stdout; a run that is over has
    forwarded all of stdout and then all of stderr.  When what the child
    writes to stderr fits into the pipe, every run can be brought to its
    end, and what it has forwarded then are the writes of
    [run_snakemake_pipeline]. *)
Theorem stdout_is_forwarded_before_stderr
    (capacity : N) (c : child) (schedule : list turn) :
  let s := exec capacity c schedule in
  forwarded s
    = tag Stdout (lines_of Stdout (forwarded s))
      ++ tag Stderr (lines_of Stderr (forwarded s))
  /\ is_prefix (lines_of Stdout (forwarded s)) (lines_of Stdout (emits c))
  /\ is_prefix (lines_of Stderr (forwarded s)) (lines_of Stderr (emits c))
  /\ (lines_of Stderr (forwarded s) <> [] ->
      lines_of Stdout (forwarded s) = lines_of Stdout (emits c))
  /\ (at_phase s = Finished ->
      forwarded s
      = tag Stdout (lines_of Stdout (emits c))
        ++ tag Stderr (lines_of Stderr (emits c)))
  /\ ((stderr_bytes (emits c) <= capacity)%N ->
      at_phase (exec capacity c (schedule ++ fair_schedule c)) = Finished
      /\ forall w : world, snakemake w = Returns c ->
           forwards (snd (run_snakemake_pipeline w))
           = forwarded (exec capacity c (schedule ++ fair_schedule c))).
Proof.
  intros s. pose proof (drain_invariant_exec capacity c schedule) as Hinv.
  fold s in Hinv.
  destruct (forwarded_in_order c s Hinv) as (H1 & H2 & H3 & H4).
  repeat (split; [assumption|]).
  split; [now apply finished_forwarded|].
  intros Hfit.
  pose proof (fair_schedule_finishes capacity c schedule Hfit) as Hfin.
  split; [exact Hfin|]. intros w Hw.
  rewrite (run_snakemake_pipeline_forwards w c Hw). symmetry.
  apply finished_forwarded; [apply drain_invariant_exec|exact Hfin].
Qed.

Lemma stdout_is_forwarded_before_stderr_witness :
  forwarded (exec pipe_capacity chatty_child eager_schedule)
  = [(Stdout, "rule all"); (Stdout, "1 of 3 steps");
     (Stderr, "Building DAG of jobs..."); (Stderr, "Error in rule bench")]%string.
Proof.
  refine (eq_trans
            (proj1 (proj2 (proj2 (proj2 (proj2
               (stdout_is_forwarded_before_stderr pipe_capacity chatty_child
                  eager_schedule)))))
               _) _); vm_compute; reflexivity.
Defined.

(** ** The three steps of [main] *)

Lemma existsb_map_forward (f : event -> bool) (st : stream) (l : list string) :
  (forall x, f (Forward st x) = false) ->
  existsb f (map (Forward st) l) = false.
Proof.
  intros H. induction l as [|a l IH]; [reflexivity|]. simpl. now rewrite H.
Qed.

Lemma launches_app (a b : list event) : launches (a ++ b) = launches a + launches b.
Proof. unfold launches. now rewrite filter_app, length_app. Qed.

Lemma launches_none (t : list event) : existsb of_pipeline t = false -> launches t = 0.
Proof.
  unfold launches. induction t as [|e t IH]; [reflexivity|].
  simpl. intros H. apply orb_false_iff in H. destruct H as [He Ht].
  destruct e; simpl in *; try discriminate; auto.
Qed.

Lemma launches_forward (st : stream) (l : list string) :
  launches (map (Forward st) l) = 0.
Proof. induction l as [|a l IH]; [reflexivity|exact IH]. Qed.

Lemma generate_summary_table_absent (w : world) :
  csv_isfile w = false ->
  generate_summary_table w
  = (SysExit 1,
     [IsFile summary_file;
      PrintLine "Error: summary_reports/combined_summary_report.csv not found."]).
Proof. intros H. unfold generate_summary_table. rewrite H. reflexivity. Qed.

Lemma generate_summary_table_present (w : world) :
  csv_isfile w = true ->
  generate_summary_table w
  = match csv_read w with
    | Raises e =>
        (SysExit 1,
         [IsFile summary_file;
          PrintLine "Loading the combined_summary_report.csv file...";
          ReadCsv summary_file;
          PrintLine ("Error loading " ++ summary_file ++ ": " ++ str_exn e)])
    | Returns df =>
        match tabulate w df with
        | Raises e =>
            (Uncaught e,
             [IsFile summary_file;
              PrintLine "Loading the combined_summary_report.csv file...";
              ReadCsv summary_file;
              PrintLine "Converting the combined_summary_report DataFrame to a Markdown table..."])
        | Returns table =>
            (Return table,
             [IsFile summary_file;
              PrintLine "Loading the combined_summary_report.csv file...";
              ReadCsv summary_file;
              PrintLine "Converting the combined_summary_report DataFrame to a Markdown table...";
              Tabulated table])
        end
    end.
Proof.
  intros H. unfold generate_summary_table. rewrite H.
  destruct (csv_read w) as [df|e]; [|reflexivity].
  cbn. destruct (tabulate w df); reflexivity.
Qed.

(** The effects of each function are its own. *)
Lemma pipeline_effects (w : world) :
  existsb of_summary (snd (run_snakemake_pipeline w)) = false
  /\ existsb of_readme (snd (run_snakemake_pipeline w)) = false
  /\ launches (snd (run_snakemake_pipeline w)) = 1.
Proof.
  destruct (snakemake w) as [c|e] eqn:E.
  - rewrite (run_snakemake_pipeline_trace w c E). cbn [snd app].
    change (launches (?a :: ?b :: ?l)) with (S (launches l)).
    cbn [existsb of_summary of_readme orb].
    rewrite !existsb_app, !launches_app, !launches_forward.
    rewrite !existsb_map_forward by reflexivity.
    destruct (returncode c =? 0)%Z; repeat split; reflexivity.
  - unfold run_snakemake_pipeline. rewrite E. repeat split; reflexivity.
Qed.

Lemma summary_effects (w : world) :
  existsb of_pipeline (snd (generate_summary_table w)) = false
  /\ existsb of_readme (snd (generate_summary_table w)) = false.
Proof.
  destruct (csv_isfile w) eqn:E.
  - rewrite (generate_summary_table_present w E).
    destruct (csv_read w) as [df|e]; [destruct (tabulate w df)|]; split; reflexivity.
  - rewrite (generate_summary_table_absent w E). split; reflexivity.
Qed.

Lemma readme_effects (w : world) (table : string) :
  existsb of_pipeline (snd (generate_readme w table)) = false
  /\ existsb of_summary (snd (generate_readme w table)) = false.
Proof.
  unfold generate_readme.
  destruct (template_isfile w); [|split; reflexivity].
  destruct (distribution w "snakemake") as [sv|]; [|split; reflexivity].
  destruct (distribution w "pandas") as [pv|]; [|split; reflexivity].
  destruct (distribution w "tabulate") as [tv|]; [|split; reflexivity].
  destruct (template_read w) as [t|]; [|split; reflexivity].
  cbn -[format]. destruct (format t _); [|split; reflexivity].
  destruct (output_write w); split; reflexivity.
Qed.

(** The effects of [main] are those of its three steps, one after the
    other, a step running only when the one before it returned. *)
Lemma main_trace (w : world) :
  let step1 := when (negb (skip_pipeline w)) (run_snakemake_pipeline w) in
  snd (main w)
  = snd step1
    ++ match fst step1 with
       | Return _ =>
           snd (generate_summary_table w)
           ++ match fst (generate_summary_table w) with
              | Return table =>
                  snd (generate_readme w table)
                  ++ match fst (generate_readme w table) with
                     | Return _ => [PrintLine "Finished!"]
                     | _ => []
                     end
              | _ => []
              end
       | _ => []
       end.
Proof.
  intros step1. unfold main. fold step1.
  destruct step1 as [[[]|n|e] t1]; cbn [bind fst snd];
    rewrite ?app_nil_r; try reflexivity.
  destruct (generate_summary_table w) as [[table|n|e] t2]; cbn [bind fst snd];
    rewrite ?app_nil_r; try reflexivity.
  destruct (generate_readme w table) as [[[]|n|e] t3]; cbn [bind fst snd print tell];
    rewrite ?app_nil_r; reflexivity.
Qed.


Lemma python_events (m : M unit) :
  events (python m)
  = snd m ++ match fst m with
             | Uncaught e => [Traceback e]
             | _ => []
             end.
Proof. destruct m as [[[]|n|e] t]; simpl; now rewrite ?app_nil_r. Qed.

Lemma main_outcome (w : world) :
  let step1 := when (negb (skip_pipeline w)) (run_snakemake_pipeline w) in
  fst (main w)
  = match fst step1 with
    | Return _ =>
        match fst (generate_summary_table w) with
        | Return table => fst (generate_readme w table)
        | SysExit n => SysExit n
        | Uncaught e => Uncaught e
        end
    | SysExit n => SysExit n
    | Uncaught e => Uncaught e
    end.
Proof.
  intros step1. unfold main. fold step1.
  destruct step1 as [[[]|n|e] t1]; cbn [bind fst snd]; try reflexivity.
  destruct (generate_summary_table w) as [[table|n|e] t2]; cbn [bind fst snd];
    try reflexivity.
  destruct (generate_readme w table) as [[[]|n|e] t3]; reflexivity.
Qed.

Lemma pipeline_outcome (w : world) :
  fst (run_snakemake_pipeline w)
  = match snakemake w with
    | Raises e => Uncaught e
    | Returns c => if (returncode c =? 0)%Z then Return tt else SysExit 1
    end.
Proof.
  destruct (snakemake w) as [c|e] eqn:E.
  - now rewrite (run_snakemake_pipeline_trace w c E).
  - unfold run_snakemake_pipeline. rewrite E. reflexivity.
Qed.

Lemma step1_effects (w : world) :
  let step1 := when (negb (skip_pipeline w)) (run_snakemake_pipeline w) in
  existsb of_summary (snd step1) = false
  /\ existsb of_readme (snd step1) = false
  /\ (fst step1 = Return tt \/ fst step1 = SysExit 1 \/ exists e, fst step1 = Uncaught e).
Proof.
  destruct (skip_pipeline w); cbn [negb when].
  - repeat split; auto.
  - destruct (pipeline_effects w) as (H1 & H2 & _). repeat split; auto.
    rewrite pipeline_outcome. destruct (snakemake w) as [c|e]; eauto.
    destruct (returncode c =? 0)%Z; auto.
Qed.



Lemma snd_bind_tell {B} (e : event) (k : M B) :
  snd (tell e ;;; k) = e :: snd k.
Proof. unfold bind, tell. destruct k as [o t]. reflexivity. Qed.

(** Each of the two later steps starts by looking for its file. *)
Lemma later_steps_start (w : world) :
  hd_error (snd (generate_summary_table w)) = Some (IsFile summary_file)
  /\ forall table : string,
       hd_error (snd (generate_readme w table)) = Some (IsFile template_file).
Proof.
  split; [|intros table].
  - unfold generate_summary_table. now rewrite snd_bind_tell.
  - unfold generate_readme. now rewrite snd_bind_tell.
Qed.

(** C4: [run_snakemake_pipeline] launches the tool exactly once, and a run
    of the driver launches it once, or not at all under [--skip-pipeline].
    The driver is past its loop over the child's stdout only when the
    child has exited: it blocks until then, for ever when the child has
    more to write to stderr than the pipe takes.  When the child gets to
    exit, every run of the two comes to its end; the driver waits for the
    child after it has forwarded its output and handles it no more after
    that; when the child's status is not zero the function prints that the
    pipeline failed and exits with status 1, and the run of the driver
    ends there, with that status and no later effect.  The effects of a
    run whose workflow step comes to an end are those of the workflow
    step, then, if it returned, those of the summary table, then, if that
    returned a table, those of the README for that table, then the last
    line; each step has effects of its own kind only, and each of the two
    later steps starts by looking for its file. *)
Theorem workflow_is_launched_once_and_its_failure_ends_the_run
    (w : world) (capacity : N) :
  let step1 := when (negb (skip_pipeline w)) (run_snakemake_pipeline w) in
  launches (snd (run_snakemake_pipeline w)) = 1
  /\ launches (events (python (main w))) = (if skip_pipeline w then 0 else 1)
  /\ (forall c : child, snakemake w = Returns c ->
        (forall schedule : list turn,
            at_phase (exec capacity c schedule) <> DrainStdout ->
            exited (exec capacity c schedule) = true)
        /\ ((capacity < stderr_bytes (emits c))%N ->
            forall schedule : list turn,
              exited (exec capacity c schedule) = false
              /\ at_phase (exec capacity c schedule) = DrainStdout)
        /\ ((stderr_bytes (emits c) <= capacity)%N ->
            (forall schedule : list turn,
                at_phase (exec capacity c (schedule ++ fair_schedule c)) = Finished
                /\ forwards (snd (run_snakemake_pipeline w))
                   = forwarded (exec capacity c (schedule ++ fair_schedule c)))
            /\ exists status_check : list event,
                 snd (run_snakemake_pipeline w)
                 = [PrintLine "Running the Snakemake pipeline..."; Popen snakemake_argv]
                   ++ map (Forward Stdout) (lines_of Stdout (emits c))
                   ++ map (Forward Stderr) (lines_of Stderr (emits c))
                   ++ Wait :: status_check
                 /\ existsb of_pipeline status_check = false
                 /\ (returncode c = 0%Z ->
                     status_check = []
                     /\ fst (run_snakemake_pipeline w) = Return tt)
                 /\ (returncode c <> 0%Z ->
                     status_check = [PrintLine "Snakemake pipeline failed."]
                     /\ fst (run_snakemake_pipeline w) = SysExit 1
                     /\ (skip_pipeline w = false ->
                         python (main w)
                         = mkRun (snd (run_snakemake_pipeline w)) 1))))
  /\ (comes_to_an_end capacity w ->
      snd (main w)
      = snd step1
        ++ match fst step1 with
           | Return _ =>
               snd (generate_summary_table w)
               ++ match fst (generate_summary_table w) with
                  | Return table =>
                      snd (generate_readme w table)
                      ++ match fst (generate_readme w table) with
                         | Return _ => [PrintLine "Finished!"]
                         | _ => []
                         end
                  | _ => []
                  end
           | _ => []
           end
      /\ existsb of_summary (snd step1) = false
      /\ existsb of_readme (snd step1) = false
      /\ existsb of_pipeline (snd (generate_summary_table w)) = false
      /\ existsb of_readme (snd (generate_summary_table w)) = false
      /\ hd_error (snd (generate_summary_table w)) = Some (IsFile summary_file)
      /\ forall table : string,
           existsb of_pipeline (snd (generate_readme w table)) = false
           /\ existsb of_summary (snd (generate_readme w table)) = false
           /\ hd_error (snd (generate_readme w table))
              = Some (IsFile template_file)).
Proof.
  intros step1.
  pose proof (main_trace w) as Ht. pose proof (main_outcome w) as Ho.
  cbv zeta in Ht, Ho. fold step1 in Ht, Ho.
  destruct (pipeline_effects w) as (P1 & P2 & P3).
  destruct (step1_effects w) as (Q1 & Q2 & Q3). fold step1 in Q1, Q2, Q3.
  destruct (summary_effects w) as (S1 & S2).
  destruct (later_steps_start w) as (L2 & L3).
  (* the effects after the workflow step hold nothing of the child *)
  set (rest := match fst step1 with
               | Return _ => _
               | _ => []
               end) in Ht.
  assert (Hrest : existsb of_pipeline rest = false).
  { subst rest. destruct (fst step1); try reflexivity.
    rewrite existsb_app, S1.
    destruct (fst (generate_summary_table w)) as [table| |]; try reflexivity.
    destruct (readme_effects w table) as (R1 & _).
    rewrite existsb_app, R1.
    destruct (fst (generate_readme w table)); reflexivity. }
  assert (Htb : existsb of_pipeline
                  match fst (main w) with
                  | Uncaught e => [Traceback e]
                  | _ => []
                  end = false)
    by (destruct (fst (main w)); reflexivity).
  split; [exact P3|]. split; [|split].
  - rewrite python_events, Ht, !launches_app.
    rewrite (launches_none _ Hrest), (launches_none _ Htb).
    subst step1. destruct (skip_pipeline w); cbn [negb when snd ret].
    + reflexivity.
    + rewrite P3. reflexivity.
  - intros c Hc.
    pose proof (run_snakemake_pipeline_trace w c Hc) as Hp.
    split; [|split].
    + intros schedule.
      apply (past_stdout_exited c), drain_invariant_exec.
    + intros Hflood schedule.
      destruct (flood_blocks capacity c schedule Hflood) as (F1 & F2 & _).
      now split.
    + intros Hfit. split.
      * intros schedule.
        pose proof (fair_schedule_finishes capacity c schedule Hfit) as Hfin.
        split; [exact Hfin|].
        rewrite (run_snakemake_pipeline_forwards w c Hc). symmetry.
        apply finished_forwarded; [apply drain_invariant_exec|exact Hfin].
      * exists (if (returncode c =? 0)%Z then []
                else [PrintLine "Snakemake pipeline failed."]).
        split; [now rewrite Hp|].
        split; [destruct (returncode c =? 0)%Z; reflexivity|]. split.
        -- intros Hrc. rewrite Hp, Hrc. split; reflexivity.
        -- intros Hrc. apply Z.eqb_neq in Hrc. rewrite Hrc.
           split; [reflexivity|]. split; [now rewrite Hp, Hrc|].
           intros Hskip. unfold main. rewrite Hskip. cbn [negb when].
           rewrite Hp, Hrc. reflexivity.
  - intros _. split; [exact Ht|].
    repeat (split; [assumption|]).
    intros table. destruct (readme_effects w table) as (R1 & R2).
    repeat (split; [assumption|]). apply L3.
Qed.

Lemma workflow_is_launched_once_and_its_failure_ends_the_run_witness :
  launches (events (python (main failed_workflow_world))) = 1
  /\ python (main failed_workflow_world)
     = mkRun [PrintLine "Running the Snakemake pipeline...";
              Popen snakemake_argv;
              Forward Stdout "rule all"; Forward Stdout "1 of 3 steps";
              Forward Stderr "Building DAG of jobs...";
              Forward Stderr "Error in rule bench";
              Wait; PrintLine "Snakemake pipeline failed."] 1.
Proof.
  pose proof (workflow_is_launched_once_and_its_failure_ends_the_run
                failed_workflow_world pipe_capacity) as H.
  cbv zeta in H. destruct H as (_ & H1 & H2 & _).
  split; [exact H1|].
  destruct (H2 chatty_child eq_refl) as (_ & _ & H3).
  destruct H3 as (_ & sc & _ & _ & _ & H4);
    [intros E; vm_compute in E; discriminate E|].
  destruct H4 as (_ & _ & H5); [discriminate|].
  rewrite (H5 eq_refl). reflexivity.
Defined.

(** ** Rendering the README *)

Lemma string_app_assoc (a b c : string) :
  ((a ++ b) ++ c)%string = (a ++ b ++ c)%string.
Proof. induction a as [|x a IH]; simpl; [reflexivity|now rewrite IH]. Qed.

Lemma has_prefix_app (n post : string) : has_prefix n (n ++ post) = true.
Proof.
  induction n as [|x n IH]; [reflexivity|]. simpl.
  now rewrite Ascii.eqb_refl, IH.
Qed.

Lemma contains_unfold (needle hay : string) :
  contains needle hay
  = has_prefix needle hay
    || match hay with
       | EmptyString => false
       | String _ hay' => contains needle hay'
       end.
Proof. destruct hay; reflexivity. Qed.

Lemma occurs_in_contains (needle hay : string) :
  occurs_in needle hay -> contains needle hay = true.
Proof.
  intros (pre & post & ->). induction pre as [|x pre IH].
  - change (EmptyString ++ needle ++ post)%string with (needle ++ post)%string.
    rewrite contains_unfold, has_prefix_app. reflexivity.
  - change (String x pre ++ needle ++ post)%string
      with (String x (pre ++ needle ++ post)%string).
    rewrite contains_unfold, IH. apply orb_true_r.
Qed.

Lemma occurs_in_here (needle post : string) : occurs_in needle (needle ++ post).
Proof. exists EmptyString, post. reflexivity. Qed.

Lemma occurs_in_later (needle pre hay : string) :
  occurs_in needle hay -> occurs_in needle (pre ++ hay).
Proof.
  intros (a & b & ->). exists (pre ++ a)%string, b.
  now rewrite string_app_assoc.
Qed.

Lemma no_brace_app (a b : string) :
  no_brace (a ++ b) = no_brace a && no_brace b.
Proof.
  induction a as [|x a IH]; [reflexivity|]. simpl.
  now rewrite IH, andb_assoc.
Qed.

(** A name that is not a key has no value. *)
Lemma lookup_absent (w : world) (sv pv tv table k : string) :
  ~ In k substitution_keys ->
  lookup k (readme_kwargs w sv pv tv table) = None.
Proof.
  intros H. unfold readme_kwargs, lookup.
  repeat match goal with
         | |- context [String.eqb ?a k] =>
             destruct (String.eqb_spec a k) as [E|_];
             [exfalso; apply H; rewrite <- E; simpl; tauto|]
         end.
  reflexivity.
Qed.

(** A key has a value, and is neither empty nor a number. *)
Lemma lookup_present (w : world) (sv pv tv table k : string) :
  In k substitution_keys ->
  lookup k (readme_kwargs w sv pv tv table) <> None
  /\ String.eqb k "" = false /\ all_digits k = false.
Proof.
  unfold substitution_keys. simpl.
  intros [<-|[<-|[<-|[<-|[<-|[<-|[<-|[<-|[]]]]]]]]];
    repeat split; try reflexivity; discriminate.
Qed.

(** [format] fails as soon as one placeholder has no value. *)
Lemma format_segments_raises (kw : kwargs) (name : string) :
  forall segs : list segment,
  In name (placeholder_names segs) ->
  lookup name kw = None ->
  exists e : exn, format_segments segs kw = Raises e.
Proof.
  induction segs as [|[s|f] segs IH]; simpl; intros Hin Hl.
  - contradiction.
  - destruct (IH Hin Hl) as [e ->]. now exists e.
  - destruct (get_field kw f) as [v|e] eqn:Ef; [|now exists e].
    destruct Hin as [<-|Hin].
    + unfold get_field in Ef.
      destruct (String.eqb (arg_name f) ""); [discriminate|].
      destruct (all_digits (arg_name f)); [discriminate|].
      rewrite Hl in Ef. discriminate.
    + destruct (IH Hin Hl) as [e ->]. now exists e.
Qed.

(** On plain placeholders that all have a value, [format] returns the
    template with each placeholder replaced by its value. *)
Lemma format_segments_plain (kw : kwargs) : forall segs : list segment,
  forallb is_plain segs = true ->
  (forall k, In k (placeholder_names segs) ->
     lookup k kw <> None /\ String.eqb k "" = false /\ all_digits k = false) ->
  format_segments segs kw = Returns (substituted segs kw).
Proof.
  induction segs as [|[s|f] segs IH]; simpl; intros Hp Hk.
  - reflexivity.
  - now rewrite IH.
  - apply andb_prop in Hp. destruct Hp as [Hf Hp].
    destruct (Hk (arg_name f) (or_introl eq_refl)) as (Hl & He & Hd).
    unfold get_field. rewrite He, Hd.
    destruct (lookup (arg_name f) kw) as [v|]; [|contradiction].
    destruct (indices f); [|discriminate]. simpl.
    rewrite IH; auto.
Qed.

Lemma substituted_occurs (kw : kwargs) (name v : string) :
  lookup name kw = Some v ->
  forall segs : list segment,
  In name (placeholder_names segs) ->
  occurs_in v (substituted segs kw).
Proof.
  intros Hl. induction segs as [|[s|f] segs IH]; simpl; intros Hin.
  - contradiction.
  - apply occurs_in_later. auto.
  - destruct Hin as [<-|Hin].
    + rewrite Hl. apply occurs_in_here.
    + apply occurs_in_later. auto.
Qed.

Lemma substituted_no_brace (kw : kwargs) : forall segs : list segment,
  forallb no_brace (literals segs) = true ->
  forallb no_brace (map snd kw) = true ->
  no_brace (substituted segs kw) = true.
Proof.
  intros segs Hl Hv. induction segs as [|[s|f] segs IH]; simpl in *.
  - reflexivity.
  - apply andb_prop in Hl. destruct Hl as [Hs Hl].
    now rewrite no_brace_app, Hs, IH.
  - rewrite no_brace_app, IH by assumption. rewrite andb_true_r.
    clear IH Hl. induction kw as [|[k v] kw IH]; simpl in *; [reflexivity|].
    apply andb_prop in Hv. destruct Hv as [Hv1 Hv2].
    destruct (String.eqb k (arg_name f)); auto.
Qed.

(** What [generate_readme] does once the template is read. *)
Lemma generate_readme_rendering (w : world) (table sv pv tv : string) (t : template) :
  template_isfile w = true ->
  distribution w "snakemake" = Returns sv ->
  distribution w "pandas" = Returns pv ->
  distribution w "tabulate" = Returns tv ->
  template_read w = Returns t ->
  generate_readme w table
  = match format t (readme_kwargs w sv pv tv table) with
    | Raises e => (Uncaught e, readme_prelude)
    | Returns text =>
        match output_write w with
        | None =>
            (Return tt,
             readme_prelude
             ++ [PrintLine "Writing the filled README.md file...";
                 OpenWrite output_file; Wrote output_file text])
        | Some e =>
            (SysExit 1,
             readme_prelude
             ++ [PrintLine "Writing the filled README.md file...";
                 OpenWrite output_file;
                 PrintLine ("Error writing " ++ output_file ++ ": " ++ str_exn e)])
        end
    end.
Proof.
  intros H1 H2 H3 H4 H5. unfold generate_readme.
  rewrite H1, H2, H3, H4, H5. cbn -[format].
  fold (readme_kwargs w sv pv tv table).
  destruct (format t _); [|reflexivity].
  destruct (output_write w); reflexivity.
Qed.

(** C2: when the template read from the file has a placeholder whose name
    is none of the eight keys, [generate_readme] ends the process with
    status 1 and the run closes on an error shown to the user (the
    traceback of the [KeyError] or [IndexError] that [format] raised, or
    the message of an earlier check); the same holds when the output file
    cannot be written (the message of the [except] clause); in both cases
    no file has been written. *)
Theorem unknown_placeholder_or_failed_write_fails (w : world) (summary_table : string) :
  (forall (segs : list segment) (name : string),
      template_read w = Returns (Wellformed segs) ->
      In name (placeholder_names segs) ->
      ~ In name substitution_keys ->
      status (python (generate_readme w summary_table)) = 1%Z
      /\ reported (python (generate_readme w summary_table))
      /\ wrote (events (python (generate_readme w summary_table))) = [])
  /\ (forall e : exn,
      output_write w = Some e ->
      status (python (generate_readme w summary_table)) = 1%Z
      /\ reported (python (generate_readme w summary_table))
      /\ wrote (events (python (generate_readme w summary_table))) = []).
Proof.
  split.
  - intros segs name Ht Hin Hout.
    destruct (template_isfile w) eqn:E0;
      [|unfold generate_readme; rewrite E0; repeat split].
    destruct (distribution w "snakemake") as [sv|e1] eqn:E1;
      [|unfold generate_readme; rewrite E0, E1; repeat split].
    destruct (distribution w "pandas") as [pv|e2] eqn:E2;
      [|unfold generate_readme; rewrite E0, E1, E2; repeat split].
    destruct (distribution w "tabulate") as [tv|e3] eqn:E3;
      [|unfold generate_readme; rewrite E0, E1, E2, E3; repeat split].
    rewrite (generate_readme_rendering w summary_table sv pv tv _ E0 E1 E2 E3 Ht).
    destruct (format_segments_raises (readme_kwargs w sv pv tv summary_table)
                name segs Hin (lookup_absent w sv pv tv summary_table name Hout))
      as [e He].
    unfold format. rewrite He. repeat split.
  - intros e He.
    destruct (template_isfile w) eqn:E0;
      [|unfold generate_readme; rewrite E0; repeat split].
    destruct (distribution w "snakemake") as [sv|e1] eqn:E1;
      [|unfold generate_readme; rewrite E0, E1; repeat split].
    destruct (distribution w "pandas") as [pv|e2] eqn:E2;
      [|unfold generate_readme; rewrite E0, E1, E2; repeat split].
    destruct (distribution w "tabulate") as [tv|e3] eqn:E3;
      [|unfold generate_readme; rewrite E0, E1, E2, E3; repeat split].
    destruct (template_read w) as [t|e4] eqn:E4;
      [|unfold generate_readme; rewrite E0, E1, E2, E3, E4; repeat split].
    rewrite (generate_readme_rendering w summary_table sv pv tv _ E0 E1 E2 E3 E4).
    destruct (format t _); [|repeat split]. rewrite He. repeat split.
Qed.

Lemma unknown_placeholder_or_failed_write_fails_witness :
  (status (python (generate_readme author_world report_table)) = 1%Z
   /\ reported (python (generate_readme author_world report_table))
   /\ wrote (events (python (generate_readme author_world report_table))) = [])
  /\ (status (python (generate_readme read_only_world report_table)) = 1%Z
      /\ reported (python (generate_readme read_only_world report_table))
      /\ wrote (events (python (generate_readme read_only_world report_table))) = []).
Proof.
  split.
  - refine (proj1 (unknown_placeholder_or_failed_write_fails author_world report_table)
              author_segments "author"%string eq_refl _ _).
    + simpl. tauto.
    + unfold substitution_keys. simpl. intuition discriminate.
  - exact (proj2 (unknown_placeholder_or_failed_write_fails read_only_world report_table)
             _ eq_refl).
Defined.

(** The text of the errors the operating system and the libraries raise
    for a name. *)
Example text_of_a_missing_file :
  str_exn (FileNotFoundError "README-eval-template.md")
  = "[Errno 2] No such file or directory: 'README-eval-template.md'"%string
  /\ str_exn (KeyError "author") = "'author'"%string
  /\ str_exn (DistributionNotFound "snakemake")
     = "The 'snakemake' distribution was not found and is required by the application"%string.
Proof. repeat split. Qed.

(** A template [{author} {]: the field that has no value is met before the
    stray brace; with [{date_of_run} {] the brace is what fails. *)
Example stray_brace_comes_last (w : world) (table : string) :
  format (Malformed [plain "author"; Lit " "]
            "Single '{' encountered in format string")
    (readme_kwargs w "7.25.0" "2.0.1" "0.9.0" table)
  = Raises (KeyError "author")
  /\ format (Malformed [plain "date_of_run"; Lit " "]
               "Single '{' encountered in format string")
       (readme_kwargs w "7.25.0" "2.0.1" "0.9.0" table)
     = Raises (ValueError "Single '{' encountered in format string").
Proof. split; reflexivity. Qed.

(** What the two failing runs look like. *)
Example author_world_run :
  python (generate_readme author_world report_table)
  = mkRun (readme_prelude ++ [Traceback (KeyError "author")]) 1.
Proof. reflexivity. Qed.

Example read_only_world_run :
  exists text : string,
    python (generate_readme read_only_world report_table)
    = mkRun (readme_prelude
             ++ [PrintLine "Writing the filled README.md file...";
                 OpenWrite output_file;
                 PrintLine "Error writing giab-evaluation-README.md: [Errno 13] Permission denied: 'giab-evaluation-README.md'"])
            1
    /\ format (Wellformed readme_segments)
         (readme_kwargs read_only_world "7.25.0" "2.0.1" "0.9.0" report_table)
       = Returns text.
Proof. eexists. split; reflexivity. Qed.

(** C5, as stated, fails: the placeholder names of [indexed_segments] are
    exactly the eight keys, the README is written, and it holds the first
    character of the summary table where the table should be. *)
Lemma indexed_placeholder_drops_the_table :
  same_names indexed_segments
  /\ generate_readme indexed_world report_table
     = (Return tt,
        readme_prelude
        ++ [PrintLine "Writing the filled README.md file...";
            OpenWrite output_file;
            Wrote output_file
              "Truvari Analysis 1.2.0 2023-04-26 7.25.0 v4.2.2-dev 2.0.1 0.9.0 |"])
  /\ ~ occurs_in report_table
         "Truvari Analysis 1.2.0 2023-04-26 7.25.0 v4.2.2-dev 2.0.1 0.9.0 |".
Proof.
  split; [|split].
  - intros k. unfold indexed_segments, substitution_keys. simpl. tauto.
  - reflexivity.
  - intros H. apply occurs_in_contains in H. vm_compute in H. discriminate.
Qed.

(** C5, amended: when every placeholder of the template is a plain
    [{name}] and the placeholder names are exactly the eight keys, and the
    run gets as far as rendering (the template is there and is read, the
    three versions are found) and the output file can be written, then
    [generate_readme] writes the template with every placeholder replaced
    by the value of its key; the text written holds the summary table
    verbatim; and it holds no brace at all when neither the literal text
    of the template nor a value does. *)
Theorem plain_template_is_filled_with_the_table
    (w : world) (summary_table sv pv tv : string) (segs : list segment) :
  template_isfile w = true ->
  distribution w "snakemake" = Returns sv ->
  distribution w "pandas" = Returns pv ->
  distribution w "tabulate" = Returns tv ->
  template_read w = Returns (Wellformed segs) ->
  output_write w = None ->
  forallb is_plain segs = true ->
  same_names segs ->
  let kw := readme_kwargs w sv pv tv summary_table in
  let text := substituted segs kw in
  generate_readme w summary_table
  = (Return tt,
     readme_prelude
     ++ [PrintLine "Writing the filled README.md file...";
         OpenWrite output_file; Wrote output_file text])
  /\ Forall (fun k => lookup k kw <> None) (placeholder_names segs)
  /\ occurs_in summary_table text
  /\ (forallb no_brace (literals segs) = true ->
      forallb no_brace (map snd kw) = true ->
      no_brace text = true).
Proof.
  intros H0 H1 H2 H3 H4 H5 Hplain Hnames kw text.
  assert (Hk : forall k, In k (placeholder_names segs) ->
                 lookup k kw <> None /\ String.eqb k "" = false
                 /\ all_digits k = false).
  { intros k Hin. apply lookup_present. now apply Hnames. }
  split; [|split; [|split]].
  - rewrite (generate_readme_rendering w summary_table sv pv tv _ H0 H1 H2 H3 H4).
    unfold format. fold kw. rewrite (format_segments_plain kw segs Hplain Hk).
    rewrite H5. reflexivity.
  - apply Forall_forall. intros k Hin. apply (Hk k Hin).
  - apply (substituted_occurs kw "summary_table").
    + reflexivity.
    + apply Hnames. unfold substitution_keys. simpl. tauto.
  - apply substituted_no_brace.
Qed.

Lemma plain_template_is_filled_with_the_table_witness :
  wrote (snd (generate_readme good_world report_table))
  = [(output_file,
      substituted readme_segments
        (readme_kwargs good_world "7.25.0" "2.0.1" "0.9.0" report_table))]
  /\ occurs_in report_table
       (substituted readme_segments
          (readme_kwargs good_world "7.25.0" "2.0.1" "0.9.0" report_table)).
Proof.
  assert (Hn : same_names readme_segments)
    by (intros k; unfold readme_segments, substitution_keys; simpl; tauto).
  split; [reflexivity|].
  exact (proj1 (proj2 (proj2
           (plain_template_is_filled_with_the_table good_world report_table
              "7.25.0" "2.0.1" "0.9.0" readme_segments
              eq_refl eq_refl eq_refl eq_refl eq_refl eq_refl eq_refl Hn)))).
Defined.




(** ** A run in which nothing fails *)





(** The README of that run. *)
Example good_world_readme :
  substituted readme_segments
    (readme_kwargs good_world "7.25.0" "2.0.1" "0.9.0" report_table)
  = ("# Truvari Analysis (1.2.0), run on 2023-04-26" ++ nl ++
     "snakemake 7.25.0, truvari v4.2.2-dev, pandas 2.0.1, tabulate 0.9.0" ++ nl ++
     report_table ++ nl)%string.
Proof. reflexivity. Qed.

(** * Further facts about the metrics aggregator *)

Import Totals.

Lemma wrap64_add_l (x y : Z) : wrap64 (wrap64 x + y) = wrap64 (x + y).
Proof.
  unfold wrap64. f_equal.
  replace ((x + 2 ^ 63) mod 2 ^ 64 - 2 ^ 63 + y + 2 ^ 63)%Z
    with ((x + 2 ^ 63) mod 2 ^ 64 + y)%Z by lia.
  rewrite Zplus_mod_idemp_l. f_equal. lia.
Qed.

Lemma wrap64_small (z : Z) : in_int64 z = true -> wrap64 z = z.
Proof.
  unfold in_int64, int64_min, int64_max, wrap64. intros H.
  apply andb_prop in H. destruct H as [H1 H2].
  apply Z.leb_le in H1, H2. rewrite Z.mod_small; lia.
Qed.

Lemma fold_add64 (zs : list Z) : forall x : Z,
  fold_left add64 zs (wrap64 x) = wrap64 (x + fold_right Z.add 0%Z zs).
Proof.
  induction zs as [|z zs IH]; intros x; cbn [fold_left fold_right].
  - now rewrite Z.add_0_r.
  - change (add64 (wrap64 x) z) with (wrap64 (wrap64 x + z)).
    rewrite wrap64_add_l, IH. f_equal. lia.
Qed.

Lemma column_total_exact (i : nat) (rows : list line) :
  column_total i rows = wrap64 (exact_total i rows).
Proof.
  unfold column_total, exact_total.
  transitivity
    (fold_left add64 (map (fun r => cell_value (nth i r EmptyString)) rows)
       (wrap64 0)); [reflexivity|].
  now rewrite fold_add64.
Qed.

Lemma parse_cells_spec (cells : list string) :
  parse_cells cells
  = if forallb is_int64_cell cells then Some (map cell_value cells) else None.
Proof.
  induction cells as [|c cells IH]; [reflexivity|].
  simpl. unfold is_int64_cell at 1, cell_value at 1.
  destruct (parse_int64 c); [|reflexivity].
  rewrite IH. now destruct (forallb is_int64_cell cells).
Qed.

Lemma forallb_perm {A} (f : A -> bool) (l l' : list A) :
  Permutation l l' -> forallb f l = forallb f l'.
Proof.
  induction 1; simpl; try congruence.
  now rewrite !andb_assoc, (andb_comm (f y)).
Qed.

Lemma total_perm (zs zs' : list Z) :
  Permutation zs zs' -> fold_right Z.add 0%Z zs = fold_right Z.add 0%Z zs'.
Proof. induction 1; simpl; lia. Qed.

Lemma filter_perm {A} (f : A -> bool) (l l' : list A) :
  Permutation l l' -> Permutation (filter f l) (filter f l').
Proof.
  induction 1; simpl.
  - constructor.
  - destruct (f x); auto.
  - destruct (f x), (f y); auto. constructor.
  - eapply perm_trans; eauto.
Qed.

Lemma sum_cells_perm (cells cells' : list string) :
  Permutation cells cells' -> sum_cells cells = sum_cells cells'.
Proof.
  intros H. unfold sum_cells. rewrite !parse_cells_spec.
  rewrite (forallb_perm _ _ _ H).
  destruct (forallb is_int64_cell cells'); [|reflexivity].
  f_equal.
  transitivity (fold_left add64 (map cell_value cells) (wrap64 0));
    [reflexivity|].
  transitivity (fold_left add64 (map cell_value cells') (wrap64 0));
    [|reflexivity].
  rewrite !fold_add64. do 2 f_equal.
  apply total_perm. now apply Permutation_map.
Qed.

(** The sums over the named columns of a frame whose labels are the seven
    names. *)
Lemma sum_columns_of_names (rows : list line) :
  sum_columns (mkFrame names rows) ["tpbase"; "tp"; "fn"; "fp"]%string
  = match sum_cells (map (fun r => nth 3 r EmptyString) rows),
          sum_cells (map (fun r => nth 4 r EmptyString) rows),
          sum_cells (map (fun r => nth 5 r EmptyString) rows),
          sum_cells (map (fun r => nth 6 r EmptyString) rows) with
    | Ok a, Ok b, Ok c, Ok d =>
        Ok [("tpbase", a); ("tp", b); ("fn", c); ("fp", d)]%string
    | Raise e, _, _, _ => Raise e
    | Beyond, _, _, _ => Beyond
    | Ok _, Raise e, _, _ => Raise e
    | Ok _, Beyond, _, _ => Beyond
    | Ok _, Ok _, Raise e, _ => Raise e
    | Ok _, Ok _, Beyond, _ => Beyond
    | Ok _, Ok _, Ok _, Raise e => Raise e
    | Ok _, Ok _, Ok _, Beyond => Beyond
    end.
Proof.
  unfold sum_columns.
  rewrite (column_of_names rows 3 "tpbase" eq_refl),
    (column_of_names rows 4 "tp" eq_refl),
    (column_of_names rows 5 "fn" eq_refl),
    (column_of_names rows 6 "fp" eq_refl).
  destruct (sum_cells (map (fun r => nth 3 r EmptyString) rows));
    destruct (sum_cells (map (fun r => nth 4 r EmptyString) rows));
    destruct (sum_cells (map (fun r => nth 5 r EmptyString) rows));
    destruct (sum_cells (map (fun r => nth 6 r EmptyString) rows));
    reflexivity.
Qed.

(** The sums of a file whose first line is not blank. *)
Lemma computed_sums_unfold (hdr : line) (body : list line) :
  is_blank hdr = false ->
  computed_sums (Some (hdr :: body))
  = let rows := filter (fun l => negb (is_blank l)) body in
    if forallb (fun r => List.length r <=? List.length hdr) rows
    then if 7 =? List.length hdr
         then sum_columns (mkFrame names (map (pad (List.length hdr)) rows))
                ["tpbase"; "tp"; "fn"; "fp"]%string
         else Raise (ValueError "Length mismatch")
    else Beyond.
Proof.
  intros H. unfold computed_sums, read_csv. cbn [filter]. rewrite H. cbn [negb].
  cbv zeta. destruct (forallb _ _); [|reflexivity].
  unfold set_columns. cbn [columns values].
  change (List.length names) with 7.
  now destruct (7 =? List.length hdr).
Qed.

Lemma sum_cells_value (i : nat) (rows : list line) (z : Z) :
  sum_cells (map (fun r => nth i r EmptyString) rows) = Ok z ->
  z = wrap64 (exact_total i rows).
Proof.
  unfold sum_cells. rewrite parse_cells_spec.
  destruct (forallb _ _); [|discriminate].
  intros H. inversion H; subst. unfold exact_total. rewrite map_map.
  transitivity
    (fold_left add64 (map (fun r => cell_value (nth i r EmptyString)) rows)
       (wrap64 0)); [reflexivity|].
  now rewrite fold_add64.
Qed.

Lemma exact_total_pad (n i : nat) (rows : list line) :
  i < n -> exact_total i (map (pad n) rows) = exact_total i rows.
Proof.
  intros Hi. unfold exact_total. rewrite map_map. f_equal.
  apply map_ext. intros r. now rewrite nth_pad.
Qed.

(** X4: each of the four sums is the exact integer total of its column
    over the lines after the first, reduced to the int64 range by two's
    complement wrap-around; it is the exact total whenever that total
    fits in an int64. *)
Theorem sums_are_exact_totals_up_to_int64_wrap
    (ls : tsv) (hdr : line) (rest : list line) (s : Series) :
  filter (fun l => negb (is_blank l)) ls = hdr :: rest ->
  computed_sums (Some ls) = Ok s ->
  s = [("tpbase", wrap64 (exact_total 3 rest));
       ("tp", wrap64 (exact_total 4 rest));
       ("fn", wrap64 (exact_total 5 rest));
       ("fp", wrap64 (exact_total 6 rest))]%string
  /\ (forallb (fun i => in_int64 (exact_total i rest)) [3; 4; 5; 6] = true ->
      s = [("tpbase", exact_total 3 rest); ("tp", exact_total 4 rest);
           ("fn", exact_total 5 rest); ("fp", exact_total 6 rest)]%string).
Proof.
  intros Hf Hs.
  assert (E : s = [("tpbase", wrap64 (exact_total 3 rest));
                   ("tp", wrap64 (exact_total 4 rest));
                   ("fn", wrap64 (exact_total 5 rest));
                   ("fp", wrap64 (exact_total 6 rest))]%string).
  { revert Hs. unfold computed_sums, read_csv. rewrite Hf.
    destruct (forallb _ _); [|discriminate].
    unfold set_columns. cbn [columns values].
    destruct (List.length names =? List.length hdr) eqn:El; [|discriminate].
    apply Nat.eqb_eq in El. rewrite <- El. change (List.length names) with 7.
    rewrite sum_columns_of_names.
    set (rows := map (pad 7) rest).
    destruct (sum_cells (map (fun r => nth 3 r EmptyString) rows)) as [a| |] eqn:Ea;
      try discriminate.
    destruct (sum_cells (map (fun r => nth 4 r EmptyString) rows)) as [b| |] eqn:Eb;
      try discriminate.
    destruct (sum_cells (map (fun r => nth 5 r EmptyString) rows)) as [c| |] eqn:Ec;
      try discriminate.
    destruct (sum_cells (map (fun r => nth 6 r EmptyString) rows)) as [d| |] eqn:Ed;
      try discriminate.
    intros H. inversion H; subst s.
    apply sum_cells_value in Ea, Eb, Ec, Ed. subst rows.
    rewrite exact_total_pad in Ea, Eb, Ec, Ed by lia. now subst. }
  split; [exact E|].
  cbn [forallb]. intros H.
  repeat (apply andb_prop in H; destruct H as [?H H]).
  rewrite E, !wrap64_small by assumption. reflexivity.
Qed.

Lemma sums_are_exact_totals_up_to_int64_wrap_witness :
  [("tpbase", 10); ("tp", 8); ("fn", 2); ("fp", 1)]%string%Z
  = [("tpbase", exact_total 3 two_regions); ("tp", exact_total 4 two_regions);
     ("fn", exact_total 5 two_regions); ("fp", exact_total 6 two_regions)]%string.
Proof.
  exact (proj2 (sums_are_exact_totals_up_to_int64_wrap labelled_regions
                  ["0"; "1"; "2"; "tpbase"; "tp"; "fn"; "fp"]%string two_regions
                  [("tpbase", 10); ("tp", 8); ("fn", 2); ("fp", 1)]%string%Z
                  eq_refl eq_refl) eq_refl).
Defined.

(** Where the wrap-around shows: 9223372036854775807 + 1. *)
Example sum_past_the_int64_range :
  computed_sums
    (Some [["chrom"; "start"; "end"; "tpbase"; "tp"; "fn"; "fp"];
           ["chr1"; "0"; "9"; "9223372036854775807"; "0"; "0"; "0"];
           ["chr1"; "9"; "18"; "1"; "0"; "0"; "0"]]%string)
  = Ok [("tpbase", -9223372036854775808); ("tp", 0); ("fn", 0); ("fp", 0)]%string%Z.
Proof. vm_compute. reflexivity. Qed.

Lemma filter_not_blank (rows : list line) :
  Forall (fun r => 1 < List.length r) rows ->
  filter (fun l => negb (is_blank l)) rows = rows.
Proof.
  induction 1 as [|r rows Hr _ IH]; [reflexivity|].
  simpl. rewrite IH.
  destruct r as [|a [|b r]]; simpl in *; try lia; reflexivity.
Qed.

Lemma same_counts_fields (n i : nat) (r r' : line) :
  same_counts r r' -> 3 <= i -> i < n ->
  nth i (pad n r) EmptyString = nth i (pad n r') EmptyString.
Proof.
  intros (_ & _ & H) H3 Hn. rewrite !nth_pad by assumption.
  replace i with (3 + (i - 3)) by lia.
  now rewrite <- !nth_skipn, H.
Qed.

Lemma same_counts_length (r r' : line) :
  same_counts r r' -> List.length r = List.length r'.
Proof.
  intros (H1 & H2 & H).
  assert (E : List.length (skipn 3 r) = List.length (skipn 3 r')) by now rewrite H.
  rewrite !length_skipn in E. lia.
Qed.

(** X5: the sums depend on the fourth to seventh fields of the data rows
    only: neither what the first line holds nor the first three fields of
    a row (the region's chromosome, start and end) change them. *)
Theorem only_the_count_fields_matter (hdr hdr' : line) (body body' : list line) :
  is_blank hdr = false ->
  is_blank hdr' = false ->
  List.length hdr = List.length hdr' ->
  Forall2 same_counts body body' ->
  computed_sums (Some (hdr :: body)) = computed_sums (Some (hdr' :: body')).
Proof.
  intros Hh Hh' Hl H2. rewrite !computed_sums_unfold by assumption. cbv zeta.
  assert (F : Forall (fun r => 1 < List.length r) body
              /\ Forall (fun r => 1 < List.length r) body').
  { induction H2 as [|r r' l l' (H & H' & _) _ [IH IH']]; split; constructor;
      auto; lia. }
  destruct F as [F F']. rewrite !filter_not_blank by assumption.
  rewrite <- Hl.
  assert (E1 : forallb (fun r => List.length r <=? List.length hdr) body
               = forallb (fun r => List.length r <=? List.length hdr) body').
  { induction H2 as [|r r' l l' H _ IH]; [reflexivity|].
    simpl. inversion F; inversion F'; subst.
    now rewrite (same_counts_length _ _ H), IH. }
  rewrite E1.
  destruct (forallb (fun r => List.length r <=? List.length hdr) body');
    [|reflexivity].
  destruct (7 =? List.length hdr) eqn:E7; [|reflexivity].
  apply Nat.eqb_eq in E7. rewrite <- E7.
  rewrite !sum_columns_of_names, !map_map.
  assert (E : forall i, 3 <= i -> i < 7 ->
                map (fun r => nth i (pad 7 r) EmptyString) body
                = map (fun r => nth i (pad 7 r) EmptyString) body').
  { intros i H3 H7. clear E1 F F'.
    induction H2 as [|r r' l l' H _ IH]; [reflexivity|].
    cbn [map]. f_equal; [apply (same_counts_fields 7 i r r' H); lia|exact IH]. }
  rewrite (E 3), (E 4), (E 5), (E 6) by lia. reflexivity.
Qed.

Lemma only_the_count_fields_matter_witness :
  computed_sums (Some labelled_regions)
  = computed_sums
      (Some [["chrom"; "start"; "end"; "a"; "b"; "c"; "d"];
             ["chr7"; "5"; "50"; "6"; "5"; "1"; "1"];
             ["chrX"; "0"; "1"; "4"; "3"; "1"; "0"]]%string).
Proof.
  apply (only_the_count_fields_matter
           ["0"; "1"; "2"; "tpbase"; "tp"; "fn"; "fp"]%string
           ["chrom"; "start"; "end"; "a"; "b"; "c"; "d"]%string).
  - reflexivity.
  - reflexivity.
  - reflexivity.
  - repeat constructor; simpl; lia.
Defined.

Lemma count_row_cells (i : nat) (body : list line) :
  In i [3; 4; 5; 6] ->
  forallb count_row body = true ->
  sum_cells (map (fun r => nth i r EmptyString) (map (pad 7) body))
  = Ok (column_total i body).
Proof.
  intros Hi Hb. unfold sum_cells. rewrite parse_cells_spec, !map_map.
  assert (E : forallb is_int64_cell
                (map (fun r => nth i (pad 7 r) EmptyString) body) = true).
  { induction body as [|r body IH]; [reflexivity|].
    cbn [forallb map] in Hb |- *. apply andb_prop in Hb. destruct Hb as [Hr Hb].
    rewrite (IH Hb), andb_true_r.
    rewrite nth_pad by (simpl in Hi; lia).
    unfold count_row in Hr. apply andb_prop in Hr. destruct Hr as [_ Hr].
    rewrite forallb_forall in Hr. now apply Hr. }
  rewrite E. f_equal. unfold column_total. f_equal.
  apply map_ext. intros r.
  now rewrite nth_pad by (simpl in Hi; lia).
Qed.

(** The sums of a file of count rows under a first line of seven fields. *)
Lemma count_rows_sums (ls : tsv) (hdr : line) (rest : list line) :
  filter (fun l => negb (is_blank l)) ls = hdr :: rest ->
  List.length hdr = 7 ->
  forallb count_row rest = true ->
  computed_sums (Some ls) = Ok (headerless_sums rest).
Proof.
  intros Hf Hl Hb. unfold computed_sums, read_csv. rewrite Hf, Hl.
  assert (Hlen : forallb (fun r => List.length r <=? 7) rest = true).
  { apply forallb_forall. intros r Hr. rewrite forallb_forall in Hb.
    specialize (Hb r Hr). unfold count_row in Hb.
    apply andb_prop in Hb. destruct Hb as [Hb _]. apply Nat.eqb_eq in Hb.
    apply Nat.leb_le. lia. }
  rewrite Hlen. unfold set_columns. cbn [columns values]. rewrite Hl.
  cbn [List.length names Nat.eqb]. rewrite sum_columns_of_names.
  rewrite !count_row_cells by (simpl; auto). reflexivity.
Qed.

(** X2: on a file whose first line that is not blank has seven fields and
    whose later lines that are not blank are rows of seven fields with
    int64 counts, the four sums the script computes are the totals of the
    fourth to seventh fields over the later lines; the first line is
    consumed as the line of labels and is never summed, and blank lines
    are passed over. *)
Theorem computed_sums_skip_first_line (ls : tsv) (hdr : line) (rest : list line) :
  filter (fun l => negb (is_blank l)) ls = hdr :: rest ->
  List.length hdr = 7 ->
  forallb count_row rest = true ->
  computed_sums (Some ls) = Ok (headerless_sums rest)
  /\ headerless_sums rest
     = [("tpbase", column_total 3 rest); ("tp", column_total 4 rest);
        ("fn", column_total 5 rest); ("fp", column_total 6 rest)]%string.
Proof.
  intros Hf Hl Hb. split; [now apply (count_rows_sums ls hdr rest)|reflexivity].
Qed.

Lemma computed_sums_skip_first_line_witness :
  computed_sums
    (Some [[""]; ["chr1"; "0"; "100"; "6"; "5"; "1"; "1"]; [];
           ["chr1"; "100"; "200"; "4"; "3"; "1"; "0"]]%string)
  = Ok [("tpbase", 4); ("tp", 3); ("fn", 1); ("fp", 0)]%string%Z.
Proof.
  exact (proj1 (computed_sums_skip_first_line
                  [[""]; ["chr1"; "0"; "100"; "6"; "5"; "1"; "1"]; [];
                   ["chr1"; "100"; "200"; "4"; "3"; "1"; "0"]]%string
                  ["chr1"; "0"; "100"; "6"; "5"; "1"; "1"]%string
                  [["chr1"; "100"; "200"; "4"; "3"; "1"; "0"]]%string
                  eq_refl eq_refl eq_refl)).
Defined.

Lemma well_formed_sums (hdr : line) (body : list line) :
  well_formed (hdr :: body) = true ->
  computed_sums (Some (hdr :: body)) = Ok (headerless_sums body).
Proof.
  unfold well_formed. intros H.
  apply andb_prop in H. destruct H as [H Hb].
  apply andb_prop in H. destruct H as [Hh Hl].
  apply negb_true_iff in Hh. apply Nat.eqb_eq in Hl.
  apply (count_rows_sums _ hdr body); try assumption.
  cbn [filter]. rewrite Hh. cbn [negb]. f_equal.
  apply filter_not_blank, Forall_forall. intros r Hr.
  rewrite forallb_forall in Hb. specialize (Hb r Hr). unfold count_row in Hb.
  apply andb_prop in Hb. destruct Hb as [Hb _]. apply Nat.eqb_eq in Hb. lia.
Qed.

Lemma column_total_perm (i : nat) (body body' : list line) :
  Permutation body body' -> column_total i body = column_total i body'.
Proof.
  intros Hp. rewrite !column_total_exact. f_equal. unfold exact_total.
  apply total_perm. now apply Permutation_map.
Qed.

(** X3: on files whose first line has seven fields and whose later lines
    are rows of seven fields with int64 counts, the order of the rows does
    not matter: the script computes sums for such a file and for the file
    with the same first line and the later lines rearranged, and they are
    the same four sums. *)
Theorem sums_do_not_depend_on_row_order (hdr : line) (body body' : list line) :
  well_formed (hdr :: body) = true ->
  Permutation body body' ->
  computed_sums (Some (hdr :: body)) = Ok (headerless_sums body)
  /\ computed_sums (Some (hdr :: body')) = Ok (headerless_sums body).
Proof.
  intros Hw Hp. split; [now apply well_formed_sums|].
  assert (Hw' : well_formed (hdr :: body') = true).
  { unfold well_formed in *. now rewrite <- (forallb_perm count_row _ _ Hp). }
  rewrite (well_formed_sums hdr body' Hw'). f_equal. unfold headerless_sums.
  now rewrite !(column_total_perm _ _ _ Hp).
Qed.

Lemma sums_do_not_depend_on_row_order_witness :
  computed_sums
    (Some [["0"; "1"; "2"; "tpbase"; "tp"; "fn"; "fp"];
           ["chr1"; "100"; "200"; "4"; "3"; "1"; "0"];
           ["chr1"; "0"; "100"; "6"; "5"; "1"; "1"]]%string)
  = Ok [("tpbase", 10); ("tp", 8); ("fn", 2); ("fp", 1)]%string%Z.
Proof.
  exact (proj2 (sums_do_not_depend_on_row_order
                  ["0"; "1"; "2"; "tpbase"; "tp"; "fn"; "fp"]%string
                  two_regions
                  [["chr1"; "100"; "200"; "4"; "3"; "1"; "0"];
                   ["chr1"; "0"; "100"; "6"; "5"; "1"; "1"]]%string
                  eq_refl (perm_swap _ _ _))).
Defined.

(** X6: on a file whose first line has seven fields and whose later lines
    are rows of seven fields with int64 counts, the script runs to its end
    and prints exactly one row: the formula applied to the column totals
    of the later lines.  A file of one such line alone gives the formula
    on (0, 0, 0, 0). *)
Theorem well_formed_file_prints_one_row
    (rate : Type) (performance_metrics : Z -> Z -> Z -> Z -> rate * rate * rate)
    (ls : tsv) :
  well_formed ls = true ->
  let body := tl ls in
  let tpbase := column_total 3 body in
  let tp := column_total 4 body in
  let fn := column_total 5 body in
  let fp := column_total 6 body in
  Aggregator.run rate performance_metrics (Some ls)
  = (Ok tt,
     [Summed (headerless_sums body); Called tpbase tp fn fp;
      Printed (let '(p, r, f1) := performance_metrics tpbase tp fn fp in
               mkMetrics p r f1)])
  /\ (body = [] ->
      printed rate (snd (Aggregator.run rate performance_metrics (Some ls)))
      = [let '(p, r, f1) := performance_metrics 0 0 0 0 in mkMetrics p r f1]%Z).
Proof.
  destruct ls as [|hdr body]; [discriminate|]. unfold well_formed.
  intros H. change (tl (hdr :: body)) with body.
  set (tpbase := column_total 3 body). set (tp := column_total 4 body).
  set (fn := column_total 5 body). set (fp := column_total 6 body).
  apply andb_prop in H. destruct H as [H Hb].
  apply andb_prop in H. destruct H as [Hh Hl].
  apply negb_true_iff in Hh. apply Nat.eqb_eq in Hl.
  assert (Hrows : Forall (fun r => 1 < List.length r) body).
  { apply Forall_forall. intros r Hr. rewrite forallb_forall in Hb.
    specialize (Hb r Hr). unfold count_row in Hb.
    apply andb_prop in Hb. destruct Hb as [Hb _]. apply Nat.eqb_eq in Hb. lia. }
  assert (Hlen : forallb (fun r => List.length r <=? 7) body = true).
  { apply forallb_forall. intros r Hr. rewrite forallb_forall in Hb.
    specialize (Hb r Hr). unfold count_row in Hb.
    apply andb_prop in Hb. destruct Hb as [Hb _]. apply Nat.eqb_eq in Hb.
    apply Nat.leb_le. lia. }
  assert (Hread : read_csv (Some (hdr :: body))
                  = Ok (mkFrame hdr (map (pad 7) body))).
  { unfold read_csv. cbn [filter]. rewrite Hh. cbn [negb].
    rewrite (filter_not_blank body Hrows), Hl, Hlen. reflexivity. }
  assert (Hsum : sum_columns (mkFrame names (map (pad 7) body))
                   ["tpbase"; "tp"; "fn"; "fp"]%string
                 = Ok (headerless_sums body)).
  { rewrite sum_columns_of_names.
    rewrite !count_row_cells by (simpl; auto). reflexivity. }
  assert (Hrun : Aggregator.run rate performance_metrics (Some (hdr :: body))
                 = (Ok tt,
                    [Summed (headerless_sums body); Called tpbase tp fn fp;
                     Printed (let '(p, r, f1) := performance_metrics tpbase tp fn fp in
                              mkMetrics p r f1)])).
  { unfold Aggregator.run, script, Aggregator.bind, lift. rewrite Hread.
    unfold set_columns. cbn [columns values]. rewrite Hl.
    cbn [List.length names Nat.eqb]. rewrite Hsum.
    cbn [Aggregator.tell app headerless_sums series_get String.eqb Ascii.eqb Bool.eqb].
    fold tpbase tp fn fp.
    destruct (performance_metrics tpbase tp fn fp) as [[p r] f1]. reflexivity. }
  split; [exact Hrun|].
  intros E. apply (f_equal (fun x => printed rate (snd x))) in Hrun.
  etransitivity; [exact Hrun|].
  subst tpbase tp fn fp. rewrite E. reflexivity.
Qed.

Lemma well_formed_file_prints_one_row_witness :
  printed unit
    (snd (Aggregator.run unit (fun _ _ _ _ => (tt, tt, tt))
            (Some [["chr1"; "0"; "100"; "6"; "5"; "1"; "1"]]%string)))
  = [mkMetrics tt tt tt].
Proof.
  exact (proj2 (well_formed_file_prints_one_row unit (fun _ _ _ _ => (tt, tt, tt))
                  [["chr1"; "0"; "100"; "6"; "5"; "1"; "1"]]%string eq_refl)
           eq_refl).
Defined.

(** * Further facts about the plot renderer *)

Import Categories.

Lemma known_state_panels (r : row) :
  List.length (panels_of r) = if known_state r then 1 else 0.
Proof.
  unfold panels_of, known_state, states, selects. cbn [filter existsb].
  destruct (String.eqb_spec (state r) "tpbase") as [E1|_];
    destruct (String.eqb_spec (state r) "tp") as [E2|_];
    destruct (String.eqb_spec (state r) "fp") as [E3|_];
    destruct (String.eqb_spec (state r) "fn") as [E4|_];
    try reflexivity; congruence.
Qed.

(** X7: a row whose state is one of the four labels is drawn in exactly
    one panel, the panel of its state; a row with any other state is drawn
    in no panel; so the four panels together hold as many rows as the
    dataset has rows with one of the four states. *)
Theorem every_row_is_drawn_once_or_never :
  (forall r : row, known_state r = true -> panels_of r = [state r])
  /\ (forall r : row, known_state r = false -> panels_of r = [])
  /\ (forall data : list row,
        list_sum (map (fun p => List.length (rows p)) (figure data))
        = List.length (filter known_state data)).
Proof.
  split; [|split].
  - intros r H. pose proof (known_state_panels r) as L. rewrite H in L.
    unfold panels_of in *.
    destruct (filter (fun s => selects s r) states) as [|s [|s' l]] eqn:E;
      try discriminate.
    assert (Hin : In s (filter (fun s => selects s r) states))
      by (rewrite E; left; reflexivity).
    apply filter_In in Hin. destruct Hin as [_ Hs].
    unfold selects in Hs. apply String.eqb_eq in Hs. now rewrite Hs.
  - intros r H. pose proof (known_state_panels r) as L. rewrite H in L.
    now destruct (panels_of r).
  - intros data.
    rewrite <- (map_map rows (@List.length row)), figure_rows, map_map.
    induction data as [|r data IH]; [reflexivity|].
    pose proof (known_state_panels r) as L.
    unfold panels_of, states in L. unfold states in *.
    cbn [map filter] in *. rewrite !partition_cons.
    unfold list_sum in *. cbn [fold_right] in *.
    destruct (known_state r); cbn [List.length];
      destruct (selects "tpbase" r), (selects "tp" r), (selects "fp" r),
        (selects "fn" r); cbn [List.length] in L; lia.
Qed.

Lemma every_row_is_drawn_once_or_never_witness :
  panels_of (mkRow "TP" "DEL" "[50,100)") = []
  /\ panels_of (mkRow "tp" "DEL" "[50,100)") = ["tp"]%string.
Proof.
  split.
  - exact (proj1 (proj2 every_row_is_drawn_once_or_never)
             (mkRow "TP" "DEL" "[50,100)") eq_refl).
  - exact (proj1 every_row_is_drawn_once_or_never
             (mkRow "tp" "DEL" "[50,100)") eq_refl).
Defined.

(** ** Categories *)

Lemma insert_category_In (c x : string) (cats : list string) :
  In x (insert_category c cats) <-> x = c \/ In x cats.
Proof.
  induction cats as [|y cats IH]; simpl.
  - intuition.
  - destruct (String.compare c y) eqn:E; simpl.
    + apply String_as_OT.cmp_eq in E. subst y. intuition.
    + intuition.
    + rewrite IH. intuition.
Qed.

Lemma sorted_unique_In (x : string) (vals : list string) :
  In x (sorted_unique vals) <-> In x vals.
Proof.
  induction vals as [|v vals IH]; simpl; [tauto|].
  rewrite insert_category_In, IH. intuition.
Qed.

Lemma insert_category_HdRel (c x : string) (cats : list string) :
  HdRel before x cats -> before x c -> HdRel before x (insert_category c cats).
Proof.
  intros H Hc. destruct cats as [|y cats]; simpl.
  - now constructor.
  - inversion H; subst. destruct (String.compare c y); now constructor.
Qed.

Lemma insert_category_Sorted (c : string) (cats : list string) :
  Sorted before cats -> Sorted before (insert_category c cats).
Proof.
  induction 1 as [|y cats Hs IH Hh]; simpl.
  - repeat constructor.
  - destruct (String.compare c y) eqn:E.
    + now constructor.
    + constructor; [now constructor|]. now constructor.
    + constructor; [exact IH|]. apply insert_category_HdRel; [exact Hh|].
      unfold before. change (String_as_OT.cmp y c = Lt).
      rewrite String_as_OT.cmp_antisym. unfold String_as_OT.cmp. now rewrite E.
Qed.

Lemma sorted_unique_Sorted (vals : list string) : Sorted before (sorted_unique vals).
Proof.
  induction vals as [|v vals IH]; simpl; [constructor|].
  now apply insert_category_Sorted.
Qed.

Lemma before_trans (a b c : string) : before a b -> before b c -> before a c.
Proof.
  unfold before. change String.compare with String_as_OT.cmp.
  rewrite !String_as_OT.cmp_lt. apply String_as_OT.lt_trans.
Qed.

Lemma before_irrefl (a : string) : ~ before a a.
Proof.
  unfold before. intros H.
  assert (E : String_as_OT.cmp a a = Eq) by now apply String_as_OT.cmp_eq.
  unfold String_as_OT.cmp in E. congruence.
Qed.

Lemma sorted_unique_NoDup (vals : list string) : NoDup (sorted_unique vals).
Proof.
  pose proof (sorted_unique_Sorted vals) as H.
  apply Sorted_StronglySorted in H; [|exact before_trans].
  induction H as [|x l _ IH Hx]; constructor; [|exact IH].
  intros Hin. rewrite Forall_forall in Hx.
  exact (before_irrefl x (Hx x Hin)).
Qed.

Lemma filter_StronglySorted {A} (R : A -> A -> Prop) (f : A -> bool) (l : list A) :
  StronglySorted R l -> StronglySorted R (filter f l).
Proof.
  induction 1 as [|x l _ IH Hx]; simpl; [constructor|].
  destruct (f x); [|exact IH]. constructor; [exact IH|].
  rewrite Forall_forall in *. intros y Hy. apply filter_In in Hy. now apply Hx.
Qed.

Lemma astype_category_ok (d : dtype) (vals : list string) :
  categorical_ok d vals ->
  NoDup (astype_category d vals)
  /\ forall v, In v vals -> In v (astype_category d vals).
Proof.
  destruct d as [|cats]; simpl.
  - intros _. split; [apply sorted_unique_NoDup|].
    intros v Hv. now apply sorted_unique_In.
  - tauto.
Qed.

Lemma remove_unused_categories_In (cats vals : list string) (c : string) :
  (forall v, In v vals -> In v cats) ->
  In c (remove_unused_categories cats vals) <-> In c vals.
Proof.
  intros H. unfold remove_unused_categories. rewrite filter_In, existsb_exists.
  split.
  - intros (_ & v & Hv & E). apply String.eqb_eq in E. now subst.
  - intros Hc. split; [now apply H|]. exists c. split; [exact Hc|].
    apply String.eqb_refl.
Qed.

(** The categories of a panel are the values of its rows, each once. *)
Lemma categories_of_panel (d : dataset) (s : string) :
  dataset_ok d ->
  (forall c : string,
      In c (szbin_categories d s)
      <-> exists r : row, In r (partition (records d) s) /\ szbin r = c)
  /\ (forall c : string,
      In c (svtype_categories d s)
      <-> exists r : row, In r (partition (records d) s) /\ svtype r = c)
  /\ NoDup (szbin_categories d s)
  /\ NoDup (svtype_categories d s).
Proof.
  intros [Hx Hh].
  destruct (astype_category_ok _ _ Hx) as [Nx Ix].
  destruct (astype_category_ok _ _ Hh) as [Nh Ih].
  assert (Sub : forall (f : row -> string) v,
             In v (map f (partition (records d) s)) -> In v (map f (records d))).
  { intros f v Hv. apply in_map_iff in Hv. destruct Hv as (r & E & Hr).
    apply in_map_iff. exists r. split; [exact E|].
    unfold partition in Hr. now apply filter_In in Hr. }
  split; [|split; [|split]].
  - intros c. unfold szbin_categories.
    rewrite remove_unused_categories_In by (intros v Hv; apply Ix, Sub, Hv).
    rewrite in_map_iff. split; intros (r & H1 & H2); exists r; tauto.
  - intros c. unfold svtype_categories.
    rewrite remove_unused_categories_In by (intros v Hv; apply Ih, Sub, Hv).
    rewrite in_map_iff. split; intros (r & H1 & H2); exists r; tauto.
  - apply NoDup_filter, Nx.
  - apply NoDup_filter, Nh.
Qed.

(** X8: in every panel the categories of szbin and of svtype are exactly
    the values that occur in the rows drawn there, each once: a category
    without a row is dropped and none with a row is lost.  When the column
    was loaded as plain strings they come in sorted order. *)
Theorem panel_categories_are_the_values_drawn (d : dataset) (s : string) :
  dataset_ok d ->
  (forall c : string,
      In c (szbin_categories d s)
      <-> exists r : row, In r (partition (records d) s) /\ szbin r = c)
  /\ (forall c : string,
      In c (svtype_categories d s)
      <-> exists r : row, In r (partition (records d) s) /\ svtype r = c)
  /\ NoDup (szbin_categories d s)
  /\ NoDup (svtype_categories d s)
  /\ (szbin_dtype d = Object -> Sorted before (szbin_categories d s))
  /\ (svtype_dtype d = Object -> Sorted before (svtype_categories d s)).
Proof.
  intros Hd. destruct (categories_of_panel d s Hd) as (H1 & H2 & H3 & H4).
  repeat (split; [assumption|]). split.
  - intros E. unfold szbin_categories, remove_unused_categories. rewrite E.
    simpl astype_category.
    apply StronglySorted_Sorted, filter_StronglySorted.
    apply Sorted_StronglySorted; [exact before_trans|apply sorted_unique_Sorted].
  - intros E. unfold svtype_categories, remove_unused_categories. rewrite E.
    simpl astype_category.
    apply StronglySorted_Sorted, filter_StronglySorted.
    apply Sorted_StronglySorted; [exact before_trans|apply sorted_unique_Sorted].
Qed.

Lemma mixed_data_ok : dataset_ok mixed_data.
Proof.
  split; simpl; [|exact I]. split.
  - repeat constructor; simpl; intuition discriminate.
  - intros v. simpl. tauto.
Qed.

Lemma panel_categories_are_the_values_drawn_witness :
  NoDup (szbin_categories mixed_data "tp")
  /\ szbin_categories mixed_data "tp" = ["[50,100)"; "[100,200)"]%string
  /\ Sorted before (svtype_categories mixed_data "tp")
  /\ svtype_categories mixed_data "tp" = ["DEL"; "INS"]%string.
Proof.
  pose proof (panel_categories_are_the_values_drawn mixed_data "tp" mixed_data_ok)
    as (_ & _ & N & _ & _ & S).
  split; [exact N|]. split; [reflexivity|]. split; [exact (S eq_refl)|reflexivity].
Defined.

(** ** Bars *)

Lemma list_sum_map_add {A} (f g : A -> nat) (l : list A) :
  list_sum (map (fun a => f a + g a) l) = list_sum (map f l) + list_sum (map g l).
Proof. induction l as [|a l IH]; simpl; lia. Qed.

Lemma indicator_sum (k : string) (cs : list string) :
  NoDup cs -> In k cs ->
  list_sum (map (fun c => if String.eqb k c then 1 else 0) cs) = 1.
Proof.
  induction 1 as [|c cs Hc _ IH]; simpl; [tauto|].
  intros [<-|Hin].
  - rewrite String.eqb_refl.
    assert (E : list_sum (map (fun c0 => if String.eqb c c0 then 1 else 0) cs) = 0).
    { clear IH. induction cs as [|x cs IH]; [reflexivity|]. simpl.
      destruct (String.eqb_spec c x) as [->|_].
      - exfalso. apply Hc. now left.
      - apply IH. intros H. apply Hc. now right. }
    lia.
  - destruct (String.eqb_spec k c) as [->|_]; [contradiction|]. now rewrite IH.
Qed.

(** Counting the rows of a list by the value of a key counts each once. *)
Lemma count_by_key (key : row -> string) (cs : list string) (l : list row) :
  NoDup cs ->
  (forall r, In r l -> In (key r) cs) ->
  list_sum (map (fun c => List.length (filter (fun r => String.eqb (key r) c) l)) cs)
  = List.length l.
Proof.
  intros Hn. induction l as [|r l IH]; intros Hin.
  - simpl. clear Hn Hin. induction cs; simpl; auto.
  - transitivity
      (list_sum (map (fun c => (if String.eqb (key r) c then 1 else 0)
                               + List.length
                                   (filter (fun r => String.eqb (key r) c) l)) cs)).
    + f_equal. apply map_ext. intros c. simpl.
      now destruct (String.eqb (key r) c).
    + rewrite list_sum_map_add, indicator_sum, IH; simpl; auto.
      * intros r' Hr'. apply Hin. now right.
      * apply Hin. now left.
Qed.

Lemma bar_height_filter (dat : list row) (x h : string) :
  bar_height dat x h
  = List.length
      (filter (fun r => String.eqb (szbin r) x)
         (filter (fun r => String.eqb (svtype r) h) dat)).
Proof.
  unfold bar_height. f_equal. induction dat as [|r dat IH]; [reflexivity|].
  simpl. destruct (String.eqb (svtype r) h); simpl.
  - rewrite andb_true_r. destruct (String.eqb (szbin r) x); now rewrite IH.
  - rewrite andb_false_r. exact IH.
Qed.

Lemma bar_height_positive (dat : list row) (r : row) :
  In r dat -> 0 < bar_height dat (szbin r) (svtype r).
Proof.
  intros Hr. unfold bar_height.
  assert (Hf : In r (filter (fun r' => String.eqb (szbin r') (szbin r)
                                      && String.eqb (svtype r') (svtype r)) dat)).
  { apply filter_In. split; [exact Hr|]. now rewrite !String.eqb_refl. }
  destruct (filter _ dat); [contradiction|simpl; lia].
Qed.

(** The bars of one hue are the szbin categories in which a row of that
    hue falls, each with the number of those rows. *)
Lemma hue_bars_In (dat : list row) (xs : list string) (h : string)
    (x h' : string) (n : nat) :
  In (x, h', n) (hue_bars dat xs h)
  <-> In x xs /\ h' = h /\ n = bar_height dat x h /\ 0 < n.
Proof.
  unfold hue_bars. rewrite in_flat_map. split.
  - intros (x0 & Hx & Hin).
    destruct (bar_height dat x0 h) as [|m] eqn:E; [contradiction|].
    destruct Hin as [Hin|[]]. inversion Hin; subst.
    rewrite E. repeat split; try assumption; lia.
  - intros (Hx & -> & -> & Hpos). exists x. split; [exact Hx|].
    destruct (bar_height dat x h); [lia|]. now left.
Qed.

Lemma hue_bars_total (dat : list row) (xs : list string) (h : string) :
  list_sum (map snd (hue_bars dat xs h))
  = list_sum (map (fun x => bar_height dat x h) xs).
Proof.
  unfold hue_bars. induction xs as [|x xs IH]; [reflexivity|].
  cbn [flat_map map]. rewrite map_app, list_sum_app, IH.
  destruct (bar_height dat x h); unfold list_sum; simpl; lia.
Qed.

Lemma countplot_total (dat : list row) (xs hs : list string) :
  list_sum (map snd (countplot dat xs hs))
  = list_sum (map (fun h => list_sum (map (fun x => bar_height dat x h) xs)) hs).
Proof.
  unfold countplot. induction hs as [|h hs IH]; [reflexivity|].
  cbn [flat_map map]. rewrite map_app, list_sum_app, IH, hue_bars_total.
  reflexivity.
Qed.

(** X9: in a dataset whose categorical columns are consistent, a panel
    has a bar for exactly the pairs of an szbin category and an svtype
    category that a row of the panel has, as high as the number of those
    rows: no bar is empty; the heights add up to the number of rows of
    the panel, so that every row drawn is counted once; and every
    category on the szbin axis carries a bar. *)
Theorem bars_count_every_row_once (d : dataset) (s : string) :
  dataset_ok d ->
  let dat := partition (records d) s in
  (forall (x h : string) (n : nat),
      In (x, h, n) (bars d s)
      <-> In x (szbin_categories d s) /\ In h (svtype_categories d s)
          /\ n = bar_height dat x h /\ 0 < n)
  /\ list_sum (map snd (bars d s)) = List.length dat
  /\ (forall x : string,
        In x (szbin_categories d s) ->
        exists (h : string) (n : nat), In (x, h, n) (bars d s)).
Proof.
  intros Hd dat. destruct (categories_of_panel d s Hd) as (Hx & Hh & Nx & Nh).
  fold dat in Hx, Hh.
  assert (Hin : forall (x h : string) (n : nat),
             In (x, h, n) (bars d s)
             <-> In x (szbin_categories d s) /\ In h (svtype_categories d s)
                 /\ n = bar_height dat x h /\ 0 < n).
  { intros x h n. unfold bars, countplot. fold dat. rewrite in_flat_map. split.
    - intros (h0 & Hh0 & Hb). apply hue_bars_In in Hb.
      destruct Hb as (H1 & -> & H2 & H3). tauto.
    - intros (H1 & H2 & H3 & H4). exists h. split; [exact H2|].
      apply hue_bars_In. tauto. }
  split; [exact Hin|]. split.
  - unfold bars. fold dat. rewrite countplot_total.
    rewrite <- (count_by_key svtype (svtype_categories d s) dat Nh).
    + f_equal. apply map_ext. intros h.
      rewrite <- (count_by_key szbin (szbin_categories d s)
                    (filter (fun r => String.eqb (svtype r) h) dat) Nx).
      * f_equal. apply map_ext. intros x. apply bar_height_filter.
      * intros r Hr. apply filter_In in Hr. apply Hx. exists r. tauto.
    + intros r Hr. apply Hh. now exists r.
  - intros x Hxin. apply Hx in Hxin. destruct Hxin as (r & Hr & E).
    exists (svtype r), (bar_height dat x (svtype r)). apply Hin.
    split; [apply Hx; now exists r|]. split; [apply Hh; now exists r|].
    split; [reflexivity|]. subst x. now apply bar_height_positive.
Qed.

Lemma bars_count_every_row_once_witness :
  list_sum (map snd (bars mixed_data "tp")) = 2
  /\ bars mixed_data "tp"
     = [("[50,100)", "DEL", 1); ("[100,200)", "INS", 1)]%string.
Proof.
  split; [|reflexivity].
  exact (proj1 (proj2 (bars_count_every_row_once mixed_data "tp" mixed_data_ok))).
Defined.

(** * Further facts about the pipeline driver *)

Import Runs.


















(** X13: [generate_readme] asks for the version of the snakemake package
    whether or not the workflow was run: under [--skip-pipeline], with the
    CSV report and the template in place, a missing snakemake package ends
    the run with status 1 on the traceback of that error, after the table
    has been produced and before the template is opened; nothing is
    written. *)
Theorem skipped_workflow_still_needs_the_snakemake_package
    (w : world) (df : frame) (table : string) (e : exn) :
  skip_pipeline w = true ->
  csv_isfile w = true ->
  csv_read w = Returns df ->
  tabulate w df = Returns table ->
  template_isfile w = true ->
  distribution w "snakemake" = Raises e ->
  status (python (main w)) = 1%Z
  /\ tabulated (events (python (main w))) = [table]
  /\ filter opens_file (events (python (main w))) = []
  /\ last (events (python (main w))) Wait = Traceback e.
Proof.
  intros Hskip Hc Hr Htab H0 H1.
  pose proof (generate_summary_table_present w Hc) as Hs.
  rewrite Hr, Htab in Hs.
  assert (Hm : python (main w)
               = mkRun (snd (generate_summary_table w)
                        ++ [IsFile template_file;
                            PrintLine "Filling in the template README.md with pipeline and run information...";
                            Now; GetDistribution "snakemake"; Traceback e]) 1).
  { unfold main. rewrite Hskip. cbn [negb when bind ret]. rewrite Hs.
    cbn [bind app snd]. unfold generate_readme. rewrite H0, H1. reflexivity. }
  rewrite Hm, Hs. repeat split.
Qed.

Lemma skipped_workflow_still_needs_the_snakemake_package_witness :
  status (python (main no_snakemake_world)) = 1%Z
  /\ last (events (python (main no_snakemake_world))) Wait
     = Traceback (DistributionNotFound "snakemake").
Proof.
  pose proof (skipped_workflow_still_needs_the_snakemake_package
                no_snakemake_world report_csv report_table
                (DistributionNotFound "snakemake")
                eq_refl eq_refl eq_refl eq_refl eq_refl eq_refl)
    as (Hs & _ & _ & Hl).
  split; [exact Hs|exact Hl].
Defined.

Lemma substituted_literals (kw : kwargs) (segs : list segment) :
  placeholder_names segs = [] ->
  substituted segs kw = joined (literals segs).
Proof.
  induction segs as [|[l|f] segs IH]; simpl; intros H.
  - reflexivity.
  - now rewrite IH.
  - discriminate.
Qed.

(** X14: a template need not use every key: when its placeholders are
    plain and each of their names is one of the eight keys, and the run
    gets as far as rendering and can write, [generate_readme] writes the
    template with its placeholders replaced, whatever keys are left
    unused; a template without any placeholder is written as its literal
    text. *)
Theorem template_may_leave_keys_unused
    (w : world) (summary_table sv pv tv : string) (segs : list segment) :
  template_isfile w = true ->
  distribution w "snakemake" = Returns sv ->
  distribution w "pandas" = Returns pv ->
  distribution w "tabulate" = Returns tv ->
  template_read w = Returns (Wellformed segs) ->
  output_write w = None ->
  forallb is_plain segs = true ->
  Forall (fun k => In k substitution_keys) (placeholder_names segs) ->
  let text := substituted segs (readme_kwargs w sv pv tv summary_table) in
  generate_readme w summary_table
  = (Return tt,
     readme_prelude
     ++ [PrintLine "Writing the filled README.md file...";
         OpenWrite output_file; Wrote output_file text])
  /\ (placeholder_names segs = [] -> text = joined (literals segs)).
Proof.
  intros H0 H1 H2 H3 H4 H5 Hplain Hnames text. split.
  - rewrite (generate_readme_rendering w summary_table sv pv tv _ H0 H1 H2 H3 H4).
    unfold format. rewrite format_segments_plain; [now rewrite H5|exact Hplain|].
    intros k Hin. apply lookup_present. rewrite Forall_forall in Hnames. auto.
  - apply substituted_literals.
Qed.

Lemma template_may_leave_keys_unused_witness :
  wrote (snd (generate_readme short_world report_table))
  = [(output_file, ("Run of 2023-04-26" ++ nl ++ report_table)%string)].
Proof.
  rewrite (proj1 (template_may_leave_keys_unused short_world report_table
                    "7.25.0" "2.0.1" "0.9.0" short_segments
                    eq_refl eq_refl eq_refl eq_refl eq_refl eq_refl eq_refl
                    ltac:(repeat constructor; simpl; tauto))).
  reflexivity.
Defined.

(** ** Order of the forwarded lines *)

Lemma all_stderr_lines (l : list (stream * string)) :
  forallb (fun e => stream_eqb (fst e) Stderr) l = true ->
  lines_of Stdout l = [] /\ tag Stderr (lines_of Stderr l) = l.
Proof.
  induction l as [|[[|] x] l IH]; simpl; intros H.
  - split; reflexivity.
  - discriminate.
  - destruct (IH H) as [H1 H2]. unfold lines_of in *. simpl.
    split; [exact H1|]. unfold tag in *. simpl. now rewrite H2.
Qed.

Lemma no_stdout_lines (l : list (stream * string)) :
  lines_of Stdout l = [] ->
  forallb (fun e => stream_eqb (fst e) Stderr) l = true.
Proof.
  induction l as [|[[|] x] l IH]; unfold lines_of; simpl; intros H.
  - reflexivity.
  - discriminate.
  - apply IH. exact H.
Qed.

(** Putting the stdout lines before the stderr lines changes nothing
    exactly when they were in that order. *)
Lemma stdout_first_spec (l : list (stream * string)) :
  tag Stdout (lines_of Stdout l) ++ tag Stderr (lines_of Stderr l) = l
  <-> stdout_first l = true.
Proof.
  induction l as [|[[|] x] l IH].
  - simpl. tauto.
  - change (lines_of Stdout ((Stdout, x) :: l)) with (x :: lines_of Stdout l).
    change (lines_of Stderr ((Stdout, x) :: l)) with (lines_of Stderr l).
    cbn [tag map app stdout_first]. fold (tag Stdout (lines_of Stdout l)).
    fold (tag Stderr (lines_of Stderr l)). rewrite <- IH.
    split; intros H; [injection H; trivial|f_equal; exact H].
  - change (lines_of Stdout ((Stderr, x) :: l)) with (lines_of Stdout l).
    change (lines_of Stderr ((Stderr, x) :: l)) with (x :: lines_of Stderr l).
    cbn [stdout_first]. split.
    + intros H. apply no_stdout_lines.
      destruct (lines_of Stdout l) as [|y ys]; [reflexivity|].
      simpl in H. discriminate.
    + intros H. destruct (all_stderr_lines l H) as [H1 H2].
      rewrite H1. cbn [tag map app]. fold (tag Stderr (lines_of Stderr l)).
      now rewrite H2.
Qed.

(** X15: after a run that is over, the lines the driver has forwarded are
    in the order in which the child wrote them exactly when the child
    never wrote to stdout after it had written to stderr; any stdout line
    that follows a stderr line is moved before it. *)
Theorem forwarding_keeps_the_order_iff_stdout_comes_first
    (capacity : N) (c : child) (schedule : list turn) :
  at_phase (exec capacity c schedule) = Finished ->
  (forwarded (exec capacity c schedule) = emits c
   <-> stdout_first (emits c) = true).
Proof.
  intros Hfin.
  destruct (drain_invariant_exec capacity c schedule) as (Ho & He & Hf & Hp).
  rewrite Hfin in Hp. destruct Hp as (E1 & E2 & E3).
  rewrite E1, E3 in Ho. rewrite E2, E3 in He. simpl in Ho, He.
  rewrite app_nil_r in Ho, He.
  rewrite Hf, <- Ho, <- He. apply stdout_first_spec.
Qed.

Lemma forwarding_keeps_the_order_iff_stdout_comes_first_witness :
  (forwarded (exec pipe_capacity quiet_child (fair_schedule quiet_child))
   = emits quiet_child
   <-> stdout_first (emits quiet_child) = true)
  /\ (forwarded (exec pipe_capacity chatty_child eager_schedule) = emits chatty_child
      <-> stdout_first (emits chatty_child) = true)
  /\ stdout_first (emits quiet_child) = true
  /\ stdout_first (emits chatty_child) = false.
Proof.
  split; [|split; [|split; reflexivity]].
  - exact (forwarding_keeps_the_order_iff_stdout_comes_first pipe_capacity
             quiet_child (fair_schedule quiet_child) eq_refl).
  - exact (forwarding_keeps_the_order_iff_stdout_comes_first pipe_capacity
             chatty_child eager_schedule eq_refl).
Defined.

(** X16: as long as the child runs (it keeps its stdout open until it
    exits), the driver is in the loop over the child's stdout: no line of
    the child's stderr is forwarded before the child has exited, however
    early the child wrote it. *)
Theorem no_stderr_line_is_forwarded_while_the_child_runs
    (capacity : N) (c : child) (schedule : list turn) :
  exited (exec capacity c schedule) = false ->
  at_phase (exec capacity c schedule) = DrainStdout
  /\ lines_of Stderr (forwarded (exec capacity c schedule)) = []
  /\ forwarded (exec capacity c schedule)
     = tag Stdout (lines_of Stdout (forwarded (exec capacity c schedule))).
Proof.
  intros Hrun.
  destruct (drain_invariant_exec capacity c schedule) as (_ & _ & Hf & Hp).
  unfold exited in Hrun.
  destruct (at_phase (exec capacity c schedule)).
  - split; [reflexivity|]. split; [exact Hp|].
    rewrite Hf at 1. rewrite Hp. simpl. now rewrite app_nil_r.
  - destruct Hp as (_ & Hp). rewrite Hp in Hrun. discriminate.
  - destruct Hp as (_ & _ & Hp). rewrite Hp in Hrun. discriminate.
  - destruct Hp as (_ & _ & Hp). rewrite Hp in Hrun. discriminate.
Qed.

Lemma no_stderr_line_is_forwarded_while_the_child_runs_witness :
  pending (exec pipe_capacity chatty_child
             [ChildTurn; DriverTurn; ChildTurn; DriverTurn; ChildTurn; DriverTurn])
  = [(Stdout, "1 of 3 steps")]%string
  /\ err_pipe (exec pipe_capacity chatty_child
                 [ChildTurn; DriverTurn; ChildTurn; DriverTurn; ChildTurn; DriverTurn])
     = ["Building DAG of jobs..."; "Error in rule bench"]%string
  /\ lines_of Stderr
       (forwarded
          (exec pipe_capacity chatty_child
             [ChildTurn; DriverTurn; ChildTurn; DriverTurn; ChildTurn; DriverTurn]))
     = [].
Proof.
  split; [reflexivity|]. split; [reflexivity|].
  exact (proj1 (proj2 (no_stderr_line_is_forwarded_while_the_child_runs
                         pipe_capacity chatty_child
                         [ChildTurn; DriverTurn; ChildTurn; DriverTurn;
                          ChildTurn; DriverTurn] eq_refl))).
Defined.
